(** * goldmark-admonitions: the blockquote classifier, the level map and
    the admonition renderer of [renderer.go], embedded and verified.

    The development follows the source file top to bottom:
    - Go values: panics, [int], strings and byte slices;
    - the part of [regexp] that the eight patterns of the file use;
    - [BlockQuoteType], [BlockQuoteLevelMap], [BlockQuoteClassifier];
    - the document tree of goldmark ([ast.Node]) as a zipper, and [ast.Walk];
    - [ParseBlockQuoteType], [GenerateBlockQuoteLevel], [renderAdmon] and
      [renderAdmonition];
    - the properties, in the order of the definitions. *)

From stdpp Require Import base option list strings gmap.
From Stdlib Require Import ZArith Ascii String Lia.

(* ===================================================================== *)
(** * Part I: definitions                                                 *)
(* ===================================================================== *)

(** ** Go run-time values *)

(** A Go computation either returns or panics.  The three panics below are
    the ones the statements of [renderer.go] can raise. *)
Inductive PanicReason :=
| NilDereference   (* method call through a nil pointer *)
| TypeAssertion    (* x.(T) on a value whose dynamic type is not T *)
| SliceBounds.     (* b[lo:hi] out of range *)

Inductive go (A : Type) : Type :=
| Ret (a : A)
| Panic (p : PanicReason).
Arguments Ret {A} a.
Arguments Panic {A} p.

#[global] Instance go_ret : MRet go := fun A a => Ret a.
#[global] Instance go_bind : MBind go := fun A B f m =>
  match m with
  | Ret a => f a
  | Panic p => Panic p
  end.

Definition returns {A} (m : go A) : Prop := exists a, m = Ret a.

(** Go's [int] on the 64-bit targets: two's complement, wrapping silently. *)
Definition wrapInt (z : Z) : Z := ((z + 2 ^ 63) mod 2 ^ 64 - 2 ^ 63)%Z.
Definition intAdd (a b : Z) : Z := wrapInt (a + b).
Definition intSub (a b : Z) : Z := wrapInt (a - b).
Definition intRange (z : Z) : Prop := (- 2 ^ 63 <= z < 2 ^ 63)%Z.

(** [error] values are opaque to the renderer; a message stands for one. *)
Definition error := string.

(** A Go string is its bytes; [string(b)] on a byte slice copies them. *)
Definition dquote : string := String "034"%char EmptyString.
Definition newline : string := String "010"%char EmptyString.

Definition isUpper (c : ascii) : bool :=
  (65 <=? nat_of_ascii c) && (nat_of_ascii c <=? 90).

Definition toLower (c : ascii) : ascii :=
  if isUpper c then ascii_of_nat (nat_of_ascii c + 32) else c.

Fixpoint lower (s : string) : string :=
  match s with
  | EmptyString => EmptyString
  | String c s' => String (toLower c) (lower s')
  end.

(** [b[lo:hi]] of a byte slice. *)
Definition slice (b : string) (lo hi : Z) : go string :=
  if ((0 <=? lo) && (lo <=? hi) && (hi <=? Z.of_nat (String.length b)))%Z
  then Ret (substring (Z.to_nat lo) (Z.to_nat (hi - lo)) b)
  else Panic SliceBounds.

Fixpoint spaces (n : nat) : string :=
  match n with
  | O => EmptyString
  | S n' => String " "%char (spaces n')
  end.

(** ** The fragment of [regexp] used by the patterns

    The syntax tree has the operators of [regexp/syntax] that the eight
    patterns of the file parse to.  Matching is on bytes: every pattern is
    ASCII, and none contains [k] or [s], the only ASCII letters whose
    case-folding orbit leaves ASCII, so that under [(?i)] a pattern letter
    matches exactly its two ASCII cases. *)
Inductive Regexp :=
| OpEmptyMatch
| OpLiteral (foldCase : bool) (runes : string)
| OpBeginText
| OpCapture (sub : Regexp)
| OpConcat (r1 r2 : Regexp)
| OpAlternate (r1 r2 : Regexp).

Definition runeEq (foldCase : bool) (c x : ascii) : bool :=
  if foldCase then bool_decide (toLower c = toLower x)
  else bool_decide (c = x).

(** Consume the literal at the head of [s]; the rest of [s] on success. *)
Fixpoint stripLiteral (foldCase : bool) (runes s : string) : option string :=
  match runes with
  | EmptyString => Some s
  | String c runes' =>
      match s with
      | String x s' =>
          if runeEq foldCase c x then stripLiteral foldCase runes' s' else None
      | EmptyString => None
      end
  end.

(** All ways to match [re] at offset [i] of the text, the text from [i] on
    being [s]: the offsets and rests after a match. *)
Fixpoint matchAt (re : Regexp) (i : nat) (s : string) : list (nat * string) :=
  match re with
  | OpEmptyMatch => [(i, s)]
  | OpLiteral f w =>
      match stripLiteral f w s with
      | Some s' => [(i + String.length w, s')]
      | None => []
      end
  | OpBeginText => if bool_decide (i = 0) then [(i, s)] else []
  | OpCapture sub => matchAt sub i s
  | OpConcat r1 r2 =>
      flat_map (fun p => matchAt r2 p.1 p.2) (matchAt r1 i s)
  | OpAlternate r1 r2 => matchAt r1 i s ++ matchAt r2 i s
  end.

Definition matchesAt (re : Regexp) (i : nat) (s : string) : bool :=
  match matchAt re i s with
  | [] => false
  | _ :: _ => true
  end.

(** An unanchored search: a match may start at any offset. *)
Fixpoint searchFrom (re : Regexp) (i : nat) (s : string) : bool :=
  matchesAt re i s ||
  match s with
  | EmptyString => false
  | String _ s' => searchFrom re (S i) s'
  end.

(** [Regexp.MatchString]; the receiver is a pointer, [None] is nil. *)
Definition MatchString (re : option Regexp) (s : string) : go bool :=
  match re with
  | Some r => Ret (searchFrom r 0 s)
  | None => Panic NilDereference
  end.

(** ** BlockQuoteType *)

Module BlockQuoteType.
Inductive t := Info | Note | Warn | Tip | None.

#[global] Instance eq_dec : EqDecision t.
Proof. solve_decision. Defined.

(** The [iota] values. *)
Definition index (x : t) : nat :=
  match x with
  | Info => 0
  | Note => 1
  | Warn => 2
  | Tip => 3
  | None => 4
  end.

Definition String (x : t) : string :=
  nth (index x) ["info"; "note"; "warning"; "tip"; "none"] "".
End BlockQuoteType.
Abbreviation BlockQuoteType := BlockQuoteType.t.

(** ** BlockQuoteClassifier *)

Record BlockQuoteClassifier := {
  patternMap : gmap string Regexp
}.

(** [m[key]] on a map of pointers: nil for a missing key. *)
Definition pattern (c : BlockQuoteClassifier) (key : string) : option Regexp :=
  patternMap c !! key.

(** [(?i)word] *)
Definition foldWord (w : string) : Regexp := OpLiteral true w.

Definition LegacyBlockQuoteClassifier : BlockQuoteClassifier := {|
  patternMap := list_to_map [
    ("info", foldWord "info");     (* (?i)info *)
    ("note", foldWord "note");     (* (?i)note *)
    ("warn", foldWord "warn");     (* (?i)warn *)
    ("tip",  foldWord "tip")       (* (?i)tip *)
  ]
|}.

(** [(?i)^\!rest]: the escaped [!] is the literal byte. *)
Definition bang (rest : Regexp) : Regexp :=
  OpConcat OpBeginText (OpConcat (OpLiteral true "!") rest).

Definition GHAlertsBlockQuoteClassifier : BlockQuoteClassifier := {|
  patternMap := list_to_map [
    (* (?i)^\!(note|important) *)
    ("info", bang (OpCapture (OpAlternate (foldWord "note")
                                          (foldWord "important"))));
    ("note", bang (foldWord "warning"));   (* (?i)^\!warning *)
    ("warn", bang (foldWord "caution"));   (* (?i)^\!caution *)
    ("tip",  bang (foldWord "tip"))        (* (?i)^\!tip *)
  ]
|}.

(** The [switch] tries its cases top to bottom and evaluates a case's
    expression only when the cases above it were false. *)
Definition ClassifyingBlockQuote (classifier : BlockQuoteClassifier)
    (literal : string) : go BlockQuoteType :=
  b ← MatchString (pattern classifier "info") literal;
  if b : bool then mret BlockQuoteType.Info else
  b ← MatchString (pattern classifier "note") literal;
  if b : bool then mret BlockQuoteType.Note else
  b ← MatchString (pattern classifier "warn") literal;
  if b : bool then mret BlockQuoteType.Warn else
  b ← MatchString (pattern classifier "tip") literal;
  if b : bool then mret BlockQuoteType.Tip else
  mret BlockQuoteType.None.

(** What the specification says of the two configurations. *)
Definition ContainsFold (w s : string) : Prop :=
  exists pre u post, s = pre +:+ u +:+ post /\ lower u = lower w.

Definition BeginsWithFold (w s : string) : Prop :=
  exists u post, s = u +:+ post /\ lower u = lower w.

(** The priority list of the specification: the kind of the first pattern
    that matches, [None] when none does. *)
Fixpoint firstMatch (ps : list (Regexp * BlockQuoteType)) (s : string)
    : BlockQuoteType :=
  match ps with
  | [] => BlockQuoteType.None
  | (re, k) :: ps' => if searchFrom re 0 s then k else firstMatch ps' s
  end.

(** ** The document tree

    goldmark's [ast] package is the host of this file.  A document is a tree
    of nodes; every node has a kind ([Kind()]) and a Go type.  The code reads
    four things off a node: its kind, its text segment when it is an
    [*ast.Text], its lines when it is an [*ast.HTMLBlock], its attributes when
    it is an [*Admonition]; and it follows [Parent], [FirstChild] and
    [NextSibling]. *)

Inductive NodeKind :=
| KindDocument
| KindBlockquote
| KindParagraph
| KindHeading
| KindTextBlock
| KindList
| KindListItem
| KindHTMLBlock
| KindText
| KindEmphasis
| KindAdmonition
| KindOther (name : string).

#[global] Instance NodeKind_eq_dec : EqDecision NodeKind.
Proof. solve_decision. Defined.

(** [text.Segment]: a range of the source buffer, with left padding. *)
Record Segment := {
  Start : Z;
  Stop : Z;
  Padding : Z
}.

(** [Segment.Value]: the padding as spaces, then [buffer[Start:Stop]]. *)
Definition Segment_Value (t : Segment) (buffer : string) : go string :=
  if bool_decide (Padding t = 0%Z) then slice buffer (Start t) (Stop t)
  else if bool_decide (Padding t < 0)%Z then Panic SliceBounds
  else body ← slice buffer (Start t) (Stop t);
       mret (spaces (Z.to_nat (Padding t)) +:+ body).

Record Attribute := {
  Name : string;
  Value : string
}.

(** What a node holds, by its Go type.  [Other k] is a node of any other
    type, whose [Kind()] answers [k]. *)
Inductive NodeData :=
| Text (segment : Segment)                       (* *ast.Text *)
| HTMLBlock (lines : list Segment)               (* *ast.HTMLBlock *)
| Admonition (attributes : option (list Attribute))
| Other (kind : NodeKind).

(** Modelled from the spec: the declaration of the [Admonition] node type and
    of [KindAdmonition] is not in the source at hand.  By the data model of
    the specification an Admonition node is the node kind this renderer is
    registered for and carries an optional attribute set; its kind is
    [KindAdmonition], a kind of its own.  The kinds of [*ast.Text] and
    [*ast.HTMLBlock] are goldmark's. *)
Definition dataKind (d : NodeData) : NodeKind :=
  match d with
  | Text _ => KindText
  | HTMLBlock _ => KindHTMLBlock
  | Admonition _ => KindAdmonition
  | Other k => k
  end.

#[warnings="-register-all"]
Inductive Tree := MkTree (data : NodeData) (children : list Tree).

Definition treeData (t : Tree) : NodeData :=
  match t with MkTree d _ => d end.
Definition treeChildren (t : Tree) : list Tree :=
  match t with MkTree _ cs => cs end.

(** A node is a pointer into a document: the subtree below it and the path
    back to the root.  A frame of the path is the parent's data, the
    siblings to the left (nearest first) and the siblings to the right. *)
Record Frame := {
  parentData : NodeData;
  before : list Tree;
  after : list Tree
}.

Record Node := {
  focus : Tree;
  context : list Frame
}.

Definition plug (f : Frame) (t : Tree) : Tree :=
  MkTree (parentData f) (rev_append (before f) (t :: after f)).

Definition Kind (n : Node) : NodeKind := dataKind (treeData (focus n)).

(** [n.Parent()], nil at the root. *)
Definition Parent (n : Node) : option Node :=
  match context n with
  | [] => None
  | f :: c => Some {| focus := plug f (focus n); context := c |}
  end.

(** [n.FirstChild()], nil without children. *)
Definition FirstChild (n : Node) : option Node :=
  match focus n with
  | MkTree d (c :: cs) =>
      Some {| focus := c;
              context := {| parentData := d; before := []; after := cs |}
                         :: context n |}
  | MkTree _ [] => None
  end.

(** [n.NextSibling()], nil at the last child and at the root. *)
Definition NextSibling (n : Node) : option Node :=
  match context n with
  | f :: c =>
      match after f with
      | r :: rs =>
          Some {| focus := r;
                  context := {| parentData := parentData f;
                                before := focus n :: before f;
                                after := rs |} :: c |}
      | [] => None
      end
  | [] => None
  end.

(** The identity of a node within its document: the child indices from the
    node up to the root.  Two pointers into one document are the same node
    exactly when these agree; a map keyed by [ast.Node] is keyed by it. *)
Definition NodeId := list nat.
Definition nodeId (n : Node) : NodeId :=
  map (fun f => List.length (before f)) (context n).

(** The ancestors of a node, nearest first, and the root above it. *)
Fixpoint ancestorsFrom (t : Tree) (c : list Frame) : list Node :=
  match c with
  | [] => []
  | f :: c' =>
      {| focus := plug f t; context := c' |} :: ancestorsFrom (plug f t) c'
  end.
Definition ancestors (n : Node) : list Node :=
  ancestorsFrom (focus n) (context n).

(** [for rootNode.Parent() != nil { rootNode = rootNode.Parent() }] *)
Fixpoint rootFrom (t : Tree) (c : list Frame) : Node :=
  match c with
  | [] => {| focus := t; context := [] |}
  | f :: c' => rootFrom (plug f t) c'
  end.
Definition rootOf (n : Node) : Node := rootFrom (focus n) (context n).

(** Two nodes are nodes of one document when their parent links lead to the
    same root. *)
Definition sameDocument (n m : Node) : Prop := rootOf n = rootOf m.

(** The nodes at and below a node, in document order. *)
Fixpoint subnodesFrom (t : Tree) (c : list Frame) : list Node :=
  {| focus := t; context := c |} ::
  match t with
  | MkTree d cs =>
      (fix below (left cs : list Tree) : list Node :=
         match cs with
         | [] => []
         | ch :: rest =>
             subnodesFrom ch ({| parentData := d; before := left;
                                 after := rest |} :: c)
             ++ below (ch :: left) rest
         end) [] cs
  end.
Definition subnodes (n : Node) : list Node :=
  subnodesFrom (focus n) (context n).

(** The number of blockquotes that enclose a node, and the nearest one. *)
Definition isBlockquote (n : Node) : bool :=
  bool_decide (Kind n = KindBlockquote).
Definition enclosing (n : Node) : nat :=
  List.length (filter (fun a => isBlockquote a = true) (ancestors n)).
Definition nearestBlockquote (n : Node) : option Node :=
  head (filter (fun a => isBlockquote a = true) (ancestors n)).

(** ** ast.Walk

    [Walk] calls the walker on a node with [entering], walks the children
    from the first to the last unless told to skip them, and calls the walker
    again with [entering] false; [WalkStop] from any call ends the whole
    walk.  The walkers of this file are closures over local variables, here
    the state [S]; they return a nil error always, and may panic. *)
Inductive WalkStatus := WalkStop | WalkSkipChildren | WalkContinue.

#[global] Instance WalkStatus_eq_dec : EqDecision WalkStatus.
Proof. solve_decision. Defined.

Definition Walker (S : Type) : Type :=
  Node -> bool -> S -> go (S * WalkStatus).

Section Walk.
Context {S : Type} (walker : Walker S).

Fixpoint walkHelper (t : Tree) (c : list Frame) (s : S)
    : go (S * WalkStatus) :=
  let n := {| focus := t; context := c |} in
  '(s, status) ← walker n true s;
  if bool_decide (status = WalkStop) then mret (s, WalkStop) else
  '(s, st) ←
    (if bool_decide (status = WalkSkipChildren) then mret (s, WalkContinue)
     else
       match t with
       | MkTree d cs =>
           (fix children (left cs : list Tree) (s : S)
                : go (S * WalkStatus) :=
              match cs with
              | [] => mret (s, WalkContinue)
              | ch :: rest =>
                  '(s, st) ← walkHelper ch ({| parentData := d;
                                                before := left;
                                                after := rest |} :: c) s;
                  if bool_decide (st = WalkStop) then mret (s, WalkStop)
                  else children (ch :: left) rest s
              end) [] cs s
       end);
  if bool_decide (st = WalkStop) then mret (s, WalkStop) else
  '(s, status) ← walker n false s;
  if bool_decide (status = WalkStop) then mret (s, WalkStop)
  else mret (s, WalkContinue).

Definition Walk (n : Node) (s : S) : go (S * WalkStatus) :=
  walkHelper (focus n) (context n) s.
End Walk.

(** ** Type assertions

    A type assertion of the single-result form panics unless the node has
    the asserted type. *)
Definition asText (n : Node) : go Segment :=
  match treeData (focus n) with
  | Text seg => Ret seg
  | _ => Panic TypeAssertion
  end.

Definition asHTMLBlock (n : Node) : go (list Segment) :=
  match treeData (focus n) with
  | HTMLBlock lines => Ret lines
  | _ => Panic TypeAssertion
  end.

Definition asAdmonition (n : Node) : go (option (list Attribute)) :=
  match treeData (focus n) with
  | Admonition attrs => Ret attrs
  | _ => Panic TypeAssertion
  end.

(** ** BlockQuoteLevelMap

    The map of one document, keyed by the identity of its nodes.  The code
    keys the map by node pointer; a map is read here at the nodes of the
    document it was computed for, where the path of a node is its
    identity.  At the nodes of any other document the code's map has no
    entry. *)

Abbreviation BlockQuoteLevelMap := (gmap NodeId Z).

(** [m[node]]: the zero value for a missing key. *)
Definition Level (m : BlockQuoteLevelMap) (node : Node) : Z :=
  default 0%Z (m !! nodeId node).

(** ** ParseBlockQuoteType *)

(** The loop over the lines of a raw HTML block: [t] is assigned at every
    line, and the loop breaks at the first line that classifies. *)
Fixpoint classifyLines (lines : list Segment) (source : string)
    (t : BlockQuoteType) : go BlockQuoteType :=
  match lines with
  | [] => mret t
  | line :: rest =>
      v ← Segment_Value line source;
      t ← ClassifyingBlockQuote LegacyBlockQuoteClassifier v;
      if bool_decide (t ≠ BlockQuoteType.None) then mret t
      else classifyLines rest source t
  end.

(** The three-fragment recovery, entered when the legacy classifier answered
    [None] for the text node [node], whose segment is [n]. *)
Definition bracketAlert (source : string) (node : Node) (n : Segment)
    (t : BlockQuoteType) : go BlockQuoteType :=
  match NextSibling node with
  | Some midNode =>
      if bool_decide (Kind midNode = KindText) then
        let rightNode := NextSibling midNode in
        midTextNode ← asText midNode;
        match rightNode with
        | Some rightNode =>
            if bool_decide (Kind rightNode = KindText) then
              rightTextNode ← asText rightNode;
              v ← Segment_Value n source;
              if bool_decide (v = "[") then
                rv ← Segment_Value rightTextNode source;
                if bool_decide (rv = "]") then
                  mv ← Segment_Value midTextNode source;
                  ClassifyingBlockQuote GHAlertsBlockQuoteClassifier mv
                else mret t
              else mret t
            else mret t
        | None => mret t
        end
      else mret t
  | None => mret t
  end.

(** The closure passed to [ast.Walk]; its captured variables [t] and
    [countParagraphs] are the state. *)
Definition parseWalker (source : string) : Walker (BlockQuoteType * Z) :=
  fun node entering '(t, countParagraphs) =>
    let countParagraphs :=
      if bool_decide (Kind node = KindParagraph) && entering
      then intAdd countParagraphs 1 else countParagraphs in
    if bool_decide (countParagraphs < 2)%Z && entering then
      '(t, countParagraphs) ←
        (if bool_decide (Kind node = KindText) then
           n ← asText node;
           v ← Segment_Value n source;
           t ← ClassifyingBlockQuote LegacyBlockQuoteClassifier v;
           t ← (if bool_decide (t = BlockQuoteType.None)
                then bracketAlert source node n t
                else mret t);
           mret (t, intAdd countParagraphs 1)
         else mret (t, countParagraphs));
      '(t, countParagraphs) ←
        (if bool_decide (Kind node = KindHTMLBlock) then
           n ← asHTMLBlock node;
           t ← classifyLines n source t;
           mret (t, intAdd countParagraphs 1)
         else mret (t, countParagraphs));
      mret ((t, countParagraphs), WalkContinue)
    else if bool_decide (countParagraphs > 1)%Z && entering then
      mret ((t, countParagraphs), WalkStop)
    else mret ((t, countParagraphs), WalkContinue).

(** The walk of [ParseBlockQuoteType] with the final values of [t] and
    [countParagraphs] and the status [ast.Walk] ended with. *)
Definition parseWalk (node : Node) (source : string)
    : go ((BlockQuoteType * Z) * WalkStatus) :=
  Walk (parseWalker source) node (BlockQuoteType.None, 0%Z).

Definition ParseBlockQuoteType (node : Node) (source : string)
    : go BlockQuoteType :=
  '((t, _), _) ← parseWalk node source;
  mret t.

(** ** GenerateBlockQuoteLevel *)

Definition levelWalker : Walker (Z * BlockQuoteLevelMap) :=
  fun node entering '(blockQuoteLevel, blockQuoteLevelMap) =>
    let '(blockQuoteLevel, blockQuoteLevelMap) :=
      if bool_decide (Kind node = KindBlockquote) && entering
      then (intAdd blockQuoteLevel 1,
            <[nodeId node := blockQuoteLevel]> blockQuoteLevelMap)
      else (blockQuoteLevel, blockQuoteLevelMap) in
    let blockQuoteLevel :=
      if bool_decide (Kind node = KindBlockquote) && negb entering
      then intSub blockQuoteLevel 1 else blockQuoteLevel in
    mret ((blockQuoteLevel, blockQuoteLevelMap), WalkContinue).

Definition GenerateBlockQuoteLevel (someNode : Node) : go BlockQuoteLevelMap :=
  let rootNode := rootOf someNode in
  '((_, blockQuoteLevelMap), _) ← Walk levelWalker rootNode (0%Z, ∅);
  mret blockQuoteLevelMap.

(** ** The renderer *)

Record Config := {
  HardWraps : bool;
  XHTML : bool;
  Unsafe : bool
}.

(** [LevelMap] is nil ([None]) until the first node is rendered. *)
Record Renderer := {
  config : Config;
  LevelMap : option BlockQuoteLevelMap
}.

(** [util.BufWriter], as far as the renderer calls it.  A call gives the
    writer after it and the error it reports; the byte counts are dropped,
    as the code drops them. *)
Class BufWriter (W : Type) := {
  Write : W -> string -> W * option error;
  WriteString : W -> string -> W * option error;
  WriteByte : W -> ascii -> W * option error
}.

Definition macroPrefix (quoteType : BlockQuoteType) : string :=
  "<ac:structured-macro ac:name=" +:+ dquote
  +:+ BlockQuoteType.String quoteType +:+ dquote
  +:+ "><ac:parameter ac:name=" +:+ dquote +:+ "icon" +:+ dquote
  +:+ ">true</ac:parameter><ac:rich-text-body>" +:+ newline.

Definition macroSuffix : string :=
  "</ac:rich-text-body></ac:structured-macro>" +:+ newline.

Section Renderer.
Context {W : Type} `{BufWriter W}.
(** [html.RenderAttributes] with [AdmonitionAttributeFilter], goldmark's
    attribute printer: it writes to the writer and returns nothing. *)
Context (RenderAttributes : W -> list Attribute -> W).

Definition renderAdmonition (r : Renderer) (w : W) (source : string)
    (node : Node) (entering : bool) : go (W * (WalkStatus * option error)) :=
  n ← asAdmonition node;
  let w :=
    if entering then
      match n with
      | Some attrs =>
          let w := (WriteString w "<blockquote").1 in
          let w := RenderAttributes w attrs in
          (WriteByte w ">"%char).1
      | None => (WriteString w ("<blockquote>" +:+ newline)).1
      end
    else (WriteString w ("</blockquote>" +:+ newline)).1 in
  mret (w, (WalkContinue, None)).

Definition renderAdmon (r : Renderer) (writer : W) (source : string)
    (node : Node) (entering : bool)
    : go (Renderer * W * (WalkStatus * option error)) :=
  m ← match LevelMap r with
      | None => GenerateBlockQuoteLevel node
      | Some m => mret m
      end;
  let r := {| config := config r; LevelMap := Some m |} in
  quoteType ← ParseBlockQuoteType node source;
  let quoteLevel := Level m node in
  if bool_decide (quoteLevel = 0%Z) && entering
     && bool_decide (quoteType ≠ BlockQuoteType.None) then
    let prefix := macroPrefix quoteType in
    match Write writer prefix with
    | (writer, Some err) => mret (r, writer, (WalkStop, Some err))
    | (writer, None) => mret (r, writer, (WalkContinue, None))
    end
  else if bool_decide (quoteLevel = 0%Z) && negb entering
          && bool_decide (quoteType ≠ BlockQuoteType.None) then
    let suffix := macroSuffix in
    match Write writer suffix with
    | (writer, Some err) => mret (r, writer, (WalkStop, Some err))
    | (writer, None) => mret (r, writer, (WalkContinue, None))
    end
  else
    '(writer, res) ← renderAdmonition r writer source node entering;
    mret (r, writer, res).
End Renderer.

(** ** Named unfoldings of the loops over the children *)

Definition walkChildren {S : Type} (walker : Walker S) (d : NodeData)
    (c : list Frame) : list Tree -> list Tree -> S -> go (S * WalkStatus) :=
  fix children (left cs : list Tree) (s : S) : go (S * WalkStatus) :=
    match cs with
    | [] => mret (s, WalkContinue)
    | ch :: rest =>
        '(s, st) ← walkHelper walker ch ({| parentData := d; before := left;
                                            after := rest |} :: c) s;
        if bool_decide (st = WalkStop) then mret (s, WalkStop)
        else children (ch :: left) rest s
    end.

Definition subnodesBelow (d : NodeData) (c : list Frame)
    : list Tree -> list Tree -> list Node :=
  fix below (left cs : list Tree) : list Node :=
    match cs with
    | [] => []
    | ch :: rest =>
        subnodesFrom ch ({| parentData := d; before := left;
                            after := rest |} :: c)
        ++ below (ch :: left) rest
    end.

(** ** Observing a walk

    A walker paired with an observer: the observer sees every call and the
    state before it, and keeps a record of its own; the walker runs as it
    would alone. *)
Definition observed {S G : Type} (walker : Walker S)
    (observe : Node -> bool -> S -> G -> G) : Walker (S * G) :=
  fun node entering '(s, g) =>
    '(s', status) ← walker node entering s;
    mret ((s', observe node entering s g), status).

(** The value of [countParagraphs] that the two tests of the walker see. *)
Definition counterAt (node : Node) (entering : bool) (countParagraphs : Z) : Z :=
  if bool_decide (Kind node = KindParagraph) && entering
  then intAdd countParagraphs 1 else countParagraphs.

(** A visit inspects its node when it classifies the node's text: an
    entering visit of a text node or a raw HTML block under the bound. *)
Definition inspects (node : Node) (entering : bool) (countParagraphs : Z) : bool :=
  bool_decide (counterAt node entering countParagraphs < 2)%Z && entering
  && (bool_decide (Kind node = KindText)
      || bool_decide (Kind node = KindHTMLBlock)).

Record Tally := {
  paragraphsEntered : nat;
  inspected : nat
}.

Definition tally (node : Node) (entering : bool) (st : BlockQuoteType * Z)
    (g : Tally) : Tally := {|
  paragraphsEntered :=
    if bool_decide (Kind node = KindParagraph) && entering
    then S (paragraphsEntered g) else paragraphsEntered g;
  inspected :=
    if inspects node entering st.2 then S (inspected g) else inspected g
|}.

Definition talliedWalk (node : Node) (source : string)
    : go (((BlockQuoteType * Z) * Tally) * WalkStatus) :=
  Walk (observed (parseWalker source) tally) node
       ((BlockQuoteType.None, 0%Z),
        {| paragraphsEntered := 0; inspected := 0 |}).

(** The walker as the specification words it, to compare with: the counter
    counts paragraph entries and nothing else, and the walk halts once it
    exceeds 1. *)
Definition specParseWalker (source : string) : Walker (BlockQuoteType * Z) :=
  fun node entering '(t, countParagraphs) =>
    let countParagraphs :=
      if bool_decide (Kind node = KindParagraph) && entering
      then intAdd countParagraphs 1 else countParagraphs in
    if bool_decide (countParagraphs > 1)%Z then
      mret ((t, countParagraphs), WalkStop)
    else if entering then
      t ← (if bool_decide (Kind node = KindText) then
             n ← asText node;
             v ← Segment_Value n source;
             t ← ClassifyingBlockQuote LegacyBlockQuoteClassifier v;
             if bool_decide (t = BlockQuoteType.None)
             then bracketAlert source node n t
             else mret t
           else mret t);
      t ← (if bool_decide (Kind node = KindHTMLBlock) then
             n ← asHTMLBlock node;
             classifyLines n source t
           else mret t);
      mret ((t, countParagraphs), WalkContinue)
    else mret ((t, countParagraphs), WalkContinue).

Definition specParseBlockQuoteType (node : Node) (source : string)
    : go BlockQuoteType :=
  '((t, _), _) ← Walk (specParseWalker source) node (BlockQuoteType.None, 0%Z);
  mret t.

(** ** A writer and documents to run the code on *)

(** A buffer that takes every write until it is broken, and none after. *)
Record Sink := {
  written : string;
  broken : bool
}.

Definition sinkWrite (w : Sink) (s : string) : Sink * option error :=
  if broken w then (w, Some "write failed")
  else ({| written := written w +:+ s; broken := false |}, None).

#[global] Instance Sink_BufWriter : BufWriter Sink := {|
  Write := sinkWrite;
  WriteString := sinkWrite;
  WriteByte := fun w b => sinkWrite w (String b EmptyString)
|}.

(** The attribute printer on a [Sink]: a space, the name, the quoted value. *)
Definition sinkRenderAttributes (w : Sink) (attrs : list Attribute) : Sink :=
  foldl (fun w a =>
           (sinkWrite w (" " +:+ Name a +:+ "=" +:+ dquote +:+ Value a
                         +:+ dquote)).1) w attrs.

Definition emptySink : Sink := {| written := ""; broken := false |}.
Definition brokenSink : Sink := {| written := ""; broken := true |}.
Definition freshRenderer : Renderer := {|
  config := {| HardWraps := false; XHTML := false; Unsafe := false |};
  LevelMap := None
|}.

Definition seg (lo hi : Z) : Segment :=
  {| Start := lo; Stop := hi; Padding := 0 |}.
Definition text (lo hi : Z) : Tree := MkTree (Text (seg lo hi)) [].
Definition block (k : NodeKind) (cs : list Tree) : Tree := MkTree (Other k) cs.
Definition inDocument (t : Tree) : Node := {|
  focus := t;
  context := [ {| parentData := Other KindDocument; before := [];
                  after := [] |} ]
|}.

(** A quote with one paragraph of one text. *)
Definition noteSource : string := "Note: remember this".
Definition noteQuote : Node :=
  inDocument (block KindBlockquote [block KindParagraph [text 0 19]]).
Definition noteAdmonition : Node :=
  inDocument (MkTree (Admonition None) [block KindParagraph [text 0 19]]).
Definition plainAdmonition : Node :=
  inDocument (MkTree (Admonition None) [block KindParagraph [text 6 19]]).

(** A quote of one paragraph: a text, then an emphasis. *)
Definition emphasisSource : string := "> see *note*".
Definition emphasisQuote : Node :=
  inDocument (block KindBlockquote
    [block KindParagraph [text 2 6; block KindEmphasis [text 7 11]]]).

(** A quote whose first block is a heading: the text, then an emphasis. *)
Definition headingSource : string := "> # Note *abc*".
Definition headingQuote : Node :=
  inDocument (block KindBlockquote
    [block KindHeading [text 4 9; block KindEmphasis [text 10 13]]]).

(** A quote that opens with a raw HTML block of three lines. *)
Definition warnSource : string := "<div>WARN</div>".
Definition warnQuote : Node :=
  inDocument (block KindBlockquote
    [MkTree (HTMLBlock [seg 0 5; seg 5 9; seg 9 15]) [];
     block KindParagraph [text 0 5]]).

(** A quote of two raw HTML blocks of one line each. *)
Definition htmlSource : string := "<b>note</b><i>x</i>".
Definition htmlQuote : Node :=
  inDocument (block KindBlockquote
    [MkTree (HTMLBlock [seg 0 11]) []; MkTree (HTMLBlock [seg 11 19]) []]).

(** The three fragments of a bracketed alert, in a heading and in a
    paragraph. *)
Definition cautionSource : string := "> # [!caution]".
Definition cautionFragments : list Tree := [text 4 5; text 5 13; text 13 14].
Definition cautionHeadingQuote : Node :=
  inDocument (block KindBlockquote [block KindHeading cautionFragments]).
Definition cautionParagraphQuote : Node :=
  inDocument (block KindBlockquote [block KindParagraph cautionFragments]).

Definition tipSource : string := "[!TIP]".
Definition tipFragments : list Tree := [text 0 1; text 1 5; text 5 6].
Definition tipParagraphQuote : Node :=
  inDocument (block KindBlockquote [block KindParagraph tipFragments]).
Definition tipHeadingQuote : Node :=
  inDocument (block KindBlockquote [block KindHeading tipFragments]).

(** A document with quotes inside quotes, and an admonition inside one. *)
Definition nestedDocument : Tree :=
  block KindDocument
    [ block KindParagraph [text 0 4];
      block KindBlockquote
        [ block KindParagraph [text 0 4];
          block KindBlockquote [block KindBlockquote []];
          MkTree (Admonition None) [block KindParagraph [text 0 4]] ] ].
Definition nestedRoot : Node := {| focus := nestedDocument; context := [] |}.

(** The [i]-th child of a node, by [FirstChild] and [NextSibling]. *)
Fixpoint siblingAt (o : option Node) (i : nat) : option Node :=
  match i with
  | O => o
  | S i' => siblingAt (o ≫= NextSibling) i'
  end.
Definition childAt (n : Node) (i : nat) : option Node :=
  siblingAt (FirstChild n) i.
Fixpoint descend (n : Node) (path : list nat) : option Node :=
  match path with
  | [] => Some n
  | i :: path' => childAt n i ≫= fun c => descend c path'
  end.

(** The nodes of the nested document the properties are run on. *)
Definition outerQuote : Node := default nestedRoot (descend nestedRoot [1]).
Definition innerQuote : Node :=
  default nestedRoot (descend nestedRoot [1; 1; 0]).
Definition nestedAdmonition : Node :=
  default nestedRoot (descend nestedRoot [1; 2]).




(** A document with two quotes side by side, the first with quotes in it. *)
Definition siblingDocument : Tree :=
  block KindDocument
    [ block KindBlockquote
        [ block KindBlockquote [block KindBlockquote []];
          block KindParagraph [text 0 4];
          block KindBlockquote [] ] ].
Definition siblingRoot : Node := {| focus := siblingDocument; context := [] |}.
Definition firstSibling : Node :=
  default siblingRoot (descend siblingRoot [0; 0]).
Definition lastSibling : Node :=
  default siblingRoot (descend siblingRoot [0; 2]).
Definition siblingsParent : Node :=
  default siblingRoot (descend siblingRoot [0]).

(** A quote whose first paragraph is a text and an emphasis, with a second
    paragraph after it. *)
Definition emphasisNoteSource : string := "> tip *note*".
Definition emphasisNoteQuote : Node :=
  inDocument (block KindBlockquote
    [block KindParagraph [text 2 6; block KindEmphasis [text 7 11]];
     block KindParagraph [text 7 11]]).

(** A quote that holds an image and nothing to read. *)
Definition imageQuote : Node :=
  inDocument (block KindBlockquote
    [block KindParagraph [block (KindOther "Image") []];
     block KindParagraph []]).

(** ** Notions the properties are stated with *)

(** A string begins with the word, up to the case of its letters. *)
Definition beginsb (w s : string) : bool :=
  bool_decide (is_Some (stripLiteral true w s)).

(** The subtree a focus stands in, some frames further up. *)
Fixpoint plugAll (t : Tree) (fs : list Frame) : Tree :=
  match fs with
  | [] => t
  | f :: fs' => plugAll (plug f t) fs'
  end.

Definition idOf (c : list Frame) : NodeId :=
  map (fun f => List.length (before f)) c.

(** The number of enclosing blockquotes as a Go [int]. *)
Definition depthInt (n : Node) : Z := wrapInt (Z.of_nat (enclosing n)).

(** What a walk of [levelWalker] over the nodes [ns] does to the map: the
    blockquotes among them get their depth, no other key changes, and a key
    that is present afterwards was present before or is one of theirs. *)
Definition levelsAt (ns : list Node) (m m' : BlockQuoteLevelMap) : Prop :=
  (forall n, n ∈ ns -> isBlockquote n = true ->
     m' !! nodeId n = Some (depthInt n)) /\
  (forall k, (forall n, n ∈ ns -> nodeId n <> k) -> m' !! k = m !! k) /\
  (forall k v, m' !! k = Some v ->
     m !! k = Some v \/
     exists n, n ∈ ns /\ isBlockquote n = true /\ nodeId n = k).

(** The result of an observed walk without the observer's record. *)
Definition forget {S G : Type} (r : go ((S * G) * WalkStatus))
    : go (S * WalkStatus) :=
  '((s, _), st) ← r; mret (s, st).

(** The counter is the number of paragraphs entered plus the number of nodes
    inspected, it lies between [lo] and [hi], and at most two nodes were
    inspected. *)
Definition counted (lo hi : Z) (s : (BlockQuoteType * Z) * Tally) : Prop :=
  s.1.2 = Z.of_nat (paragraphsEntered s.2 + inspected s.2) /\
  (lo <= s.1.2 <= hi)%Z /\ inspected s.2 <= 2.

(** Documents as the parser hands them over: every text and every raw HTML
    line lies within the source, and a node of the text or the raw HTML kind
    has the Go type of that kind. *)
Definition segmentOK (source : string) (s : Segment) : bool :=
  bool_decide (0 <= Padding s)%Z && bool_decide (0 <= Start s)%Z
  && bool_decide (Start s <= Stop s)%Z
  && bool_decide (Stop s <= Z.of_nat (String.length source))%Z.

Definition dataOK (source : string) (d : NodeData) : bool :=
  match d with
  | Text seg => segmentOK source seg
  | HTMLBlock lines => forallb (segmentOK source) lines
  | Admonition _ => true
  | Other k =>
      bool_decide (k <> KindText) && bool_decide (k <> KindHTMLBlock)
  end.

Fixpoint treeOK (source : string) (t : Tree) : bool :=
  match t with
  | MkTree d cs => dataOK source d && forallb (treeOK source) cs
  end.

Definition frameOK (source : string) (f : Frame) : bool :=
  forallb (treeOK source) (before f) && forallb (treeOK source) (after f).

Definition nodeOK (source : string) (n : Node) : bool :=
  treeOK source (focus n) && forallb (frameOK source) (context n).

(** A property of nodes that passes from a node to its children. *)
Definition hereditary (OK : Node -> Prop) : Prop :=
  forall d left ch rest c,
    OK {| focus := MkTree d (rev_append left (ch :: rest)); context := c |} ->
    OK {| focus := ch;
          context := {| parentData := d; before := left; after := rest |}
                     :: c |}.

(** A kind the walker of [ParseBlockQuoteType] passes by. *)
Definition plainKind (k : NodeKind) : Prop :=
  k <> KindParagraph /\ k <> KindText /\ k <> KindHTMLBlock.

(** The status a macro write ends with: a hard stop with the writer's
    error, or on with the walk. *)
Definition afterWrite (e : option error) : WalkStatus * option error :=
  match e with
  | Some err => (WalkStop, Some err)
  | None => (WalkContinue, None)
  end.

(** The level map the renderer works with at a node: the one it holds, or
    the one it generates from the node when it holds none. *)
Definition holds (r : Renderer) (node : Node) (m : BlockQuoteLevelMap)
    : Prop :=
  LevelMap r = Some m \/
  (LevelMap r = None /\ GenerateBlockQuoteLevel node = Ret m).

(** The keys of the pattern map in the order of the [switch]. *)
Definition switchKeys : list string := ["info"; "note"; "warn"; "tip"].

(** No node at or below the root of the tree is of the text or the raw
    HTML kind. *)
Fixpoint textFree (t : Tree) : bool :=
  match t with
  | MkTree d cs =>
      bool_decide (dataKind d <> KindText)
      && bool_decide (dataKind d <> KindHTMLBlock)
      && forallb textFree cs
  end.

(* ===================================================================== *)
(** * Part II: properties                                                 *)
(* ===================================================================== *)

(* --------------------------------------------------------------------- *)
(** ** The classifiers *)
(* --------------------------------------------------------------------- *)

(** ** Strings and the matcher *)

Lemma stripLiteral_fold_spec (w s r : string) :
  stripLiteral true w s = Some r <->
  exists u, s = u +:+ r /\ lower u = lower w.
Proof.
  revert s. induction w as [|c w IH]; intros s; simpl.
  - split.
    + intros [= ->]. by exists "".
    + intros ([|x u] & -> & Hu); [done | discriminate].
  - destruct s as [|x s]; simpl.
    + split; [done |]. intros ([|y u] & Hs & Hu); discriminate.
    + unfold runeEq. case_bool_decide as Hc.
      * rewrite IH. split.
        -- intros (u & -> & Hu). exists (String x u). simpl.
           by rewrite Hu, Hc.
        -- intros ([|y u] & Hs & Hu); [discriminate |].
           simpl in Hs, Hu. injection Hs as -> ->. injection Hu as _ Hu.
           by exists u.
      * split; [done |]. intros ([|y u] & Hs & Hu); [discriminate |].
        simpl in Hs, Hu. injection Hs as -> ->. injection Hu as Hx _.
        by rewrite Hx in Hc.
Qed.

Lemma stripLiteral_app (f : bool) (a b s : string) :
  stripLiteral f (a +:+ b) s = stripLiteral f a s ≫= stripLiteral f b.
Proof.
  revert s. induction a as [|c a IH]; intros s; simpl; [done |].
  destruct s as [|x s]; [done |]. destruct (runeEq f c x); [apply IH | done].
Qed.

Lemma beginsb_spec (w s : string) : beginsb w s = true <-> BeginsWithFold w s.
Proof.
  unfold beginsb, BeginsWithFold. rewrite bool_decide_eq_true. split.
  - intros [r Hr]. apply stripLiteral_fold_spec in Hr as (u & -> & Hu). eauto.
  - intros (u & post & -> & Hu). exists post.
    apply stripLiteral_fold_spec. eauto.
Qed.

Lemma matchesAt_literal (f : bool) (w : string) (i : nat) (s : string) :
  matchesAt (OpLiteral f w) i s = bool_decide (is_Some (stripLiteral f w s)).
Proof.
  unfold matchesAt. simpl. by destruct (stripLiteral f w s).
Qed.

Lemma search_literal_spec (w : string) (i : nat) (s : string) :
  searchFrom (foldWord w) i s = true <-> ContainsFold w s.
Proof.
  unfold foldWord. revert i. induction s as [|x s IH]; intros i.
  - simpl. rewrite orb_false_r, matchesAt_literal. fold (beginsb w "").
    rewrite beginsb_spec. split.
    + intros (u & post & Hs & Hu). by exists "", u, post.
    + intros (pre & u & post & Hs & Hu). exists u, post. split; [| done].
      destruct pre; [done | discriminate].
  - cbn [searchFrom]. rewrite orb_true_iff, IH, matchesAt_literal.
    fold (beginsb w (String x s)). rewrite beginsb_spec. split.
    + intros [(u & post & Hs & Hu) | (pre & u & post & Hs & Hu)].
      * by exists "", u, post.
      * exists (String x pre), u, post. simpl. by rewrite Hs.
    + intros ([|y pre] & u & post & Hs & Hu).
      * left. by exists u, post.
      * right. simpl in Hs. injection Hs as -> ->. by exists pre, u, post.
Qed.

Lemma search_anchored_later (r : Regexp) (i : nat) (s : string) :
  searchFrom (OpConcat OpBeginText r) (S i) s = false.
Proof.
  revert i. induction s as [|x s IH]; intros i; simpl; [done |].
  apply IH.
Qed.

Lemma search_anchored (r : Regexp) (s : string) :
  searchFrom (OpConcat OpBeginText r) 0 s = matchesAt r 0 s.
Proof.
  destruct s as [|x s]; cbn [searchFrom].
  - rewrite orb_false_r. unfold matchesAt. simpl. by rewrite app_nil_r.
  - rewrite search_anchored_later, orb_false_r. unfold matchesAt. simpl.
    by rewrite app_nil_r.
Qed.

Lemma matchesAt_bang_word (w s : string) :
  matchesAt (OpConcat (OpLiteral true "!") (foldWord w)) 0 s
  = beginsb ("!" +:+ w) s.
Proof.
  unfold beginsb. rewrite stripLiteral_app. unfold matchesAt, foldWord.
  cbn [matchAt]. destruct (stripLiteral true "!" s) as [s'|]; simpl.
  - rewrite app_nil_r. by destruct (stripLiteral true w s').
  - done.
Qed.

Lemma search_bang_word (w s : string) :
  searchFrom (bang (foldWord w)) 0 s = beginsb ("!" +:+ w) s.
Proof. unfold bang. by rewrite search_anchored, matchesAt_bang_word. Qed.

Lemma search_bang_either (a b s : string) :
  searchFrom (bang (OpCapture (OpAlternate (foldWord a) (foldWord b)))) 0 s
  = beginsb ("!" +:+ a) s || beginsb ("!" +:+ b) s.
Proof.
  unfold bang. rewrite search_anchored, <- !matchesAt_bang_word.
  unfold matchesAt, foldWord. cbn [matchAt].
  destruct (stripLiteral true "!" s) as [s'|]; simpl; [| done].
  rewrite !app_nil_r.
  destruct (stripLiteral true a s'), (stripLiteral true b s'); done.
Qed.

Lemma begins_exclusive (p c1 c2 : ascii) (w1 w2 s : string) :
  toLower c1 <> toLower c2 ->
  beginsb (String p (String c1 w1)) s = true ->
  beginsb (String p (String c2 w2)) s = false.
Proof.
  intros Hne. unfold beginsb. destruct s as [|a [|b s]]; simpl; try done.
  - by destruct (bool_decide (toLower p = toLower a)).
  - unfold runeEq. repeat case_bool_decide; try done. congruence.
Qed.

Lemma legacy_pattern (key : string) :
  key ∈ ["info"; "note"; "warn"; "tip"] ->
  pattern LegacyBlockQuoteClassifier key = Some (foldWord key).
Proof.
  rewrite !elem_of_cons, elem_of_nil.
  intros [-> | [-> | [-> | [-> | []]]]]; reflexivity.
Qed.

Lemma alerts_info :
  pattern GHAlertsBlockQuoteClassifier "info"
  = Some (bang (OpCapture (OpAlternate (foldWord "note")
                                       (foldWord "important")))).
Proof. reflexivity. Qed.
Lemma alerts_note :
  pattern GHAlertsBlockQuoteClassifier "note" = Some (bang (foldWord "warning")).
Proof. reflexivity. Qed.
Lemma alerts_warn :
  pattern GHAlertsBlockQuoteClassifier "warn" = Some (bang (foldWord "caution")).
Proof. reflexivity. Qed.
Lemma alerts_tip :
  pattern GHAlertsBlockQuoteClassifier "tip" = Some (bang (foldWord "tip")).
Proof. reflexivity. Qed.

Lemma classify_first_match (c : BlockQuoteClassifier) (ri rn rw rt : Regexp)
    (s : string) :
  pattern c "info" = Some ri -> pattern c "note" = Some rn ->
  pattern c "warn" = Some rw -> pattern c "tip" = Some rt ->
  ClassifyingBlockQuote c s
  = Ret (firstMatch [(ri, BlockQuoteType.Info); (rn, BlockQuoteType.Note);
                     (rw, BlockQuoteType.Warn); (rt, BlockQuoteType.Tip)] s).
Proof.
  intros Hi Hn Hw Ht. unfold ClassifyingBlockQuote.
  rewrite Hi, Hn, Hw, Ht. simpl.
  destruct (searchFrom ri 0 s); [done |]. simpl.
  destruct (searchFrom rn 0 s); [done |]. simpl.
  destruct (searchFrom rw 0 s); [done |]. simpl.
  by destruct (searchFrom rt 0 s).
Qed.

Lemma alerts_classify (s : string) :
  ClassifyingBlockQuote GHAlertsBlockQuoteClassifier s
  = Ret (if beginsb "!note" s || beginsb "!important" s
         then BlockQuoteType.Info
         else if beginsb "!warning" s then BlockQuoteType.Note
         else if beginsb "!caution" s then BlockQuoteType.Warn
         else if beginsb "!tip" s then BlockQuoteType.Tip
         else BlockQuoteType.None).
Proof.
  rewrite (classify_first_match _ _ _ _ _ s
             alerts_info alerts_note alerts_warn alerts_tip).
  cbn [firstMatch]. by rewrite search_bang_either, !search_bang_word.
Qed.

Lemma legacy_classify (s : string) :
  ClassifyingBlockQuote LegacyBlockQuoteClassifier s
  = Ret (firstMatch [(foldWord "info", BlockQuoteType.Info);
                     (foldWord "note", BlockQuoteType.Note);
                     (foldWord "warn", BlockQuoteType.Warn);
                     (foldWord "tip", BlockQuoteType.Tip)] s).
Proof.
  apply classify_first_match; apply legacy_pattern; set_solver.
Qed.

(** Two markers that differ in their first letter exclude each other. *)
Lemma marker_exclusive (w1 w2 s : string) :
  match w1, w2 with
  | String c1 _, String c2 _ => toLower c1 <> toLower c2
  | _, _ => False
  end ->
  beginsb (String "!" w1) s = true -> beginsb (String "!" w2) s = false.
Proof.
  destruct w1 as [|c1 w1], w2 as [|c2 w2]; try done.
  apply begins_exclusive.
Qed.

Ltac other_marker Hb w :=
  match type of Hb with
  | beginsb (String _ ?w1) ?s = true =>
      rewrite (marker_exclusive w1 w s ltac:(by vm_compute) Hb)
  end.

(** C5.  The Alert classifier goes by the beginning of the string, letters
    compared without their case: a string that begins with [!note] or
    [!important] is [Info], one that begins with [!warning] is [Note], with
    [!caution] is [Warn], with [!tip] is [Tip], and every other string is
    [None]. *)
Theorem alert_classifier_by_prefix (s : string) :
  (BeginsWithFold "!note" s \/ BeginsWithFold "!important" s ->
   ClassifyingBlockQuote GHAlertsBlockQuoteClassifier s
   = Ret BlockQuoteType.Info) /\
  (BeginsWithFold "!warning" s ->
   ClassifyingBlockQuote GHAlertsBlockQuoteClassifier s
   = Ret BlockQuoteType.Note) /\
  (BeginsWithFold "!caution" s ->
   ClassifyingBlockQuote GHAlertsBlockQuoteClassifier s
   = Ret BlockQuoteType.Warn) /\
  (BeginsWithFold "!tip" s ->
   ClassifyingBlockQuote GHAlertsBlockQuoteClassifier s
   = Ret BlockQuoteType.Tip) /\
  (~ (BeginsWithFold "!note" s \/ BeginsWithFold "!important" s \/
      BeginsWithFold "!warning" s \/ BeginsWithFold "!caution" s \/
      BeginsWithFold "!tip" s) ->
   ClassifyingBlockQuote GHAlertsBlockQuoteClassifier s
   = Ret BlockQuoteType.None).
Proof.
  rewrite alerts_classify, <- !beginsb_spec.
  repeat split.
  - intros [-> | ->]; [done | by rewrite orb_true_r].
  - intros Hb. rewrite Hb.
    other_marker Hb "note". other_marker Hb "important". reflexivity.
  - intros Hb. rewrite Hb.
    other_marker Hb "note". other_marker Hb "important".
    other_marker Hb "warning". reflexivity.
  - intros Hb. rewrite Hb.
    other_marker Hb "note". other_marker Hb "important".
    other_marker Hb "warning". other_marker Hb "caution". reflexivity.
  - intros Hno.
    destruct (beginsb "!note" s); [tauto |].
    destruct (beginsb "!important" s); [tauto |].
    destruct (beginsb "!warning" s); [tauto |].
    destruct (beginsb "!caution" s); [tauto |].
    destruct (beginsb "!tip" s); [tauto | done].
Qed.

(** C5, run on a marker in mixed case and on a marker that is not at the
    beginning. *)
Lemma alert_classifier_by_prefix_witness :
  ClassifyingBlockQuote GHAlertsBlockQuoteClassifier "!Warning: hot"
    = Ret BlockQuoteType.Note /\
  ClassifyingBlockQuote GHAlertsBlockQuoteClassifier "see !tip"
    = Ret BlockQuoteType.None.
Proof.
  destruct (alert_classifier_by_prefix "!Warning: hot")
    as (_ & Hnote & _).
  destruct (alert_classifier_by_prefix "see !tip") as (_ & _ & _ & _ & Hnone).
  split.
  - apply Hnote. exists "!Warning", ": hot". split; reflexivity.
  - apply Hnone. rewrite <- !beginsb_spec. vm_compute. intuition discriminate.
Defined.

(** C6.  A classifier that has its four patterns answers with the kind of
    the first pattern that matches, in the order info, note, warn, tip, and
    with [None] when none matches; and a pattern of the Legacy configuration
    matches a string exactly when the string contains the word the pattern
    is named after, letters compared without their case. *)
Theorem classifier_priority_order :
  (forall c ri rn rw rt s,
     pattern c "info" = Some ri -> pattern c "note" = Some rn ->
     pattern c "warn" = Some rw -> pattern c "tip" = Some rt ->
     ClassifyingBlockQuote c s
     = Ret (firstMatch [(ri, BlockQuoteType.Info); (rn, BlockQuoteType.Note);
                        (rw, BlockQuoteType.Warn); (rt, BlockQuoteType.Tip)]
              s)) /\
  (forall key s,
     key ∈ ["info"; "note"; "warn"; "tip"] ->
     exists b,
       MatchString (pattern LegacyBlockQuoteClassifier key) s = Ret b /\
       (b = true <-> ContainsFold key s)).
Proof.
  split.
  - apply classify_first_match.
  - intros key s Hkey. rewrite (legacy_pattern key Hkey). simpl.
    eexists. split; [done |]. apply search_literal_spec.
Qed.

(** C6, run on a sentence with the word in capitals. *)
Lemma classifier_priority_order_witness :
  ClassifyingBlockQuote LegacyBlockQuoteClassifier "This is a NOTE:"
    = Ret BlockQuoteType.Note /\
  exists b,
    MatchString (pattern LegacyBlockQuoteClassifier "note") "This is a NOTE:"
      = Ret b /\
    (b = true <-> ContainsFold "note" "This is a NOTE:").
Proof.
  destruct classifier_priority_order as [Horder Hlegacy]. split.
  - apply (Horder LegacyBlockQuoteClassifier (foldWord "info")
             (foldWord "note") (foldWord "warn") (foldWord "tip"));
      reflexivity.
  - apply Hlegacy. set_solver.
Defined.

(** The classifications the specification lists. *)
Example legacy_examples :
  ClassifyingBlockQuote LegacyBlockQuoteClassifier "This is a NOTE:"
    = Ret BlockQuoteType.Note /\
  ClassifyingBlockQuote LegacyBlockQuoteClassifier "nothing special"
    = Ret BlockQuoteType.None /\
  ClassifyingBlockQuote LegacyBlockQuoteClassifier "tip: use X"
    = Ret BlockQuoteType.Tip /\
  ClassifyingBlockQuote LegacyBlockQuoteClassifier "Note: see the INFO tip"
    = Ret BlockQuoteType.Info.
Proof. repeat split; vm_compute; reflexivity. Qed.

Example alert_examples :
  ClassifyingBlockQuote GHAlertsBlockQuoteClassifier "!warning"
    = Ret BlockQuoteType.Note /\
  ClassifyingBlockQuote GHAlertsBlockQuoteClassifier "!caution details"
    = Ret BlockQuoteType.Warn /\
  ClassifyingBlockQuote GHAlertsBlockQuoteClassifier "!tip"
    = Ret BlockQuoteType.Tip /\
  ClassifyingBlockQuote GHAlertsBlockQuoteClassifier "!note"
    = Ret BlockQuoteType.Info /\
  ClassifyingBlockQuote GHAlertsBlockQuoteClassifier "!important"
    = Ret BlockQuoteType.Info.
Proof. repeat split; vm_compute; reflexivity. Qed.

(** A classifier without its patterns, the zero value of the struct, panics
    at the first case of the switch. *)
Example zero_classifier_panics (s : string) :
  ClassifyingBlockQuote {| patternMap := ∅ |} s = Panic NilDereference.
Proof. reflexivity. Qed.

(* --------------------------------------------------------------------- *)
(** ** The document tree and the level map *)
(* --------------------------------------------------------------------- *)

(** ** Trees and nodes *)

Lemma Tree_ind_nested (P : Tree -> Prop) :
  (forall d cs, Forall P cs -> P (MkTree d cs)) -> forall t, P t.
Proof.
  intros H. fix IH 1. intros [d cs]. apply H.
  induction cs as [|c cs IHcs]; constructor; [apply IH | apply IHcs].
Qed.

Lemma subnodesFrom_unfold (d : NodeData) (cs : list Tree) (c : list Frame) :
  subnodesFrom (MkTree d cs) c
  = {| focus := MkTree d cs; context := c |} :: subnodesBelow d c [] cs.
Proof. reflexivity. Qed.

Lemma subnodesBelow_cons (d : NodeData) (c : list Frame) (left : list Tree)
    (ch : Tree) (rest : list Tree) :
  subnodesBelow d c left (ch :: rest)
  = subnodesFrom ch ({| parentData := d; before := left; after := rest |} :: c)
    ++ subnodesBelow d c (ch :: left) rest.
Proof. reflexivity. Qed.

Lemma rootFrom_plugAll (t : Tree) (c : list Frame) :
  rootFrom t c = {| focus := plugAll t c; context := [] |}.
Proof. revert t. induction c as [|f c IH]; intros t; simpl; [done | apply IH]. Qed.

Lemma plugAll_app (t : Tree) (fs c : list Frame) :
  plugAll t (fs ++ c) = plugAll (plugAll t fs) c.
Proof. revert t. induction fs as [|f fs IH]; intros t; simpl; [done | apply IH]. Qed.

(** A node lies at or below [(t, c)] exactly when its context extends [c]
    and plugging its focus back through the extension gives [t]. *)
Lemma subnodes_context (t : Tree) :
  forall c n, n ∈ subnodesFrom t c ->
    exists fs, context n = fs ++ c /\ plugAll (focus n) fs = t.
Proof.
  induction t as [d cs IH] using Tree_ind_nested. intros c n.
  rewrite subnodesFrom_unfold, elem_of_cons. intros [-> | Hn].
  { by exists []. }
  assert (Hloop : forall left, n ∈ subnodesBelow d c left cs ->
            exists fs, context n = fs ++ c /\
              plugAll (focus n) fs = MkTree d (rev_append left cs)).
  { clear Hn. induction IH as [|ch rest Hch _ IHrest]; intros left.
    - simpl. by rewrite elem_of_nil.
    - rewrite subnodesBelow_cons, elem_of_app. intros [Hn | Hn].
      + apply Hch in Hn as (fs & Hc & Hp).
        exists (fs ++ [{| parentData := d; before := left; after := rest |}]).
        split; [by rewrite Hc, <- app_assoc |].
        by rewrite plugAll_app, Hp.
      + by apply IHrest in Hn. }
  by apply Hloop in Hn.
Qed.

Lemma below_context (d : NodeData) (c : list Frame) (cs left : list Tree)
    (n : Node) :
  n ∈ subnodesBelow d c left cs ->
  exists fs f, context n = fs ++ f :: c /\ parentData f = d /\
    List.length left <= List.length (before f) /\
    plug f (plugAll (focus n) fs) = MkTree d (rev_append left cs).
Proof.
  revert left. induction cs as [|ch rest IH]; intros left.
  - simpl. by rewrite elem_of_nil.
  - rewrite subnodesBelow_cons, elem_of_app. intros [Hn | Hn].
    + apply subnodes_context in Hn as (fs & Hc & Hp).
      exists fs, {| parentData := d; before := left; after := rest |}.
      by rewrite Hp.
    + apply IH in Hn as (fs & f & Hc & Hd & Hlen & Hp).
      exists fs, f. simpl in Hlen. repeat split; [done | done | lia | done].
Qed.

Lemma child_subnodes (f : Frame) (t : Tree) (c : list Frame) :
  subnodesFrom t (f :: c) ⊆ subnodesFrom (plug f t) c.
Proof.
  destruct f as [d left rest]. unfold plug. simpl parentData.
  simpl before. simpl after. rewrite subnodesFrom_unfold.
  intros n Hn. apply elem_of_cons. right.
  assert (Hgen : forall pre acc xs,
            n ∈ subnodesBelow d c (pre ++ acc) xs ->
            n ∈ subnodesBelow d c acc (rev_append pre xs)).
  { clear Hn. induction pre as [|p pre IH]; intros acc xs Hx; [done |].
    simpl. apply IH. rewrite subnodesBelow_cons, elem_of_app. by right. }
  apply (Hgen left [] (t :: rest)). rewrite app_nil_r, subnodesBelow_cons.
  apply elem_of_app. by left.
Qed.

Lemma context_subnodes (n : Node) (c : list Frame) (fs : list Frame) :
  context n = fs ++ c -> n ∈ subnodesFrom (plugAll (focus n) fs) c.
Proof.
  destruct n as [t cn]. simpl. revert c cn.
  induction fs as [|f fs IH] using rev_ind; intros c cn Hc.
  - simpl in *. subst cn. destruct t as [d cs].
    rewrite subnodesFrom_unfold. apply elem_of_cons. by left.
  - rewrite plugAll_app. simpl. apply child_subnodes.
    apply IH. by rewrite Hc, <- app_assoc.
Qed.

Lemma subnodes_rootOf (n : Node) : n ∈ subnodes (rootOf n).
Proof.
  unfold subnodes, rootOf. rewrite rootFrom_plugAll. simpl.
  apply context_subnodes. by rewrite app_nil_r.
Qed.

Lemma rootOf_subnodes (r n : Node) :
  context r = [] -> n ∈ subnodes r -> rootOf n = r.
Proof.
  destruct r as [t c]. simpl. intros ->. unfold subnodes. simpl.
  intros (fs & Hc & Hp)%subnodes_context.
  unfold rootOf. rewrite rootFrom_plugAll, Hc, app_nil_r. by rewrite Hp.
Qed.

Lemma rootOf_context (n : Node) : context (rootOf n) = [].
Proof. unfold rootOf. by rewrite rootFrom_plugAll. Qed.

(** [rootOf] and [ancestors] follow the parent links, and the nodes of a
    document are the nodes at and below its root. *)
Lemma rootOf_Parent (n : Node) :
  rootOf n = match Parent n with
             | Some p => rootOf p
             | None => n
             end.
Proof. destruct n as [t [|f c]]; reflexivity. Qed.

Lemma ancestors_Parent (n : Node) :
  ancestors n = match Parent n with
                | Some p => p :: ancestors p
                | None => []
                end.
Proof. destruct n as [t [|f c]]; reflexivity. Qed.

Lemma sameDocument_subnodes (n m : Node) :
  sameDocument n m <-> n ∈ subnodes (rootOf m).
Proof.
  unfold sameDocument. split.
  - intros <-. apply subnodes_rootOf.
  - apply rootOf_subnodes, rootOf_context.
Qed.

Lemma nodeId_context (n : Node) (fs c : list Frame) :
  context n = fs ++ c -> nodeId n = idOf fs ++ idOf c.
Proof. unfold nodeId, idOf. intros ->. apply map_app. Qed.

Lemma plug_inj (f1 f2 : Frame) (t1 t2 : Tree) :
  plug f1 t1 = plug f2 t2 ->
  List.length (before f1) = List.length (before f2) ->
  f1 = f2 /\ t1 = t2.
Proof.
  destruct f1 as [d1 l1 r1], f2 as [d2 l2 r2]. unfold plug. simpl.
  rewrite !rev_append_rev. intros [= -> Hcs] Hlen.
  apply app_inj_1 in Hcs as [Hl Hr]; [| by rewrite !length_rev].
  injection Hr as -> ->. apply (f_equal (@rev Tree)) in Hl.
  rewrite !rev_involutive in Hl. by subst.
Qed.

Lemma plugAll_inj (fs1 : list Frame) :
  forall fs2 t1 t2,
    plugAll t1 fs1 = plugAll t2 fs2 -> idOf fs1 = idOf fs2 ->
    fs1 = fs2 /\ t1 = t2.
Proof.
  induction fs1 as [|f1 fs1 IH]; intros [|f2 fs2] t1 t2; simpl; try done.
  intros Hp [= Hlen Hid]. apply IH in Hp as [-> Hp]; [| done].
  apply plug_inj in Hp as [-> ->]; done.
Qed.

(** Within one document the identity tells the nodes apart. *)
Lemma nodeId_inj (t : Tree) (c : list Frame) (n1 n2 : Node) :
  n1 ∈ subnodesFrom t c -> n2 ∈ subnodesFrom t c ->
  nodeId n1 = nodeId n2 -> n1 = n2.
Proof.
  intros (fs1 & Hc1 & Hp1)%subnodes_context (fs2 & Hc2 & Hp2)%subnodes_context.
  rewrite (nodeId_context _ _ _ Hc1), (nodeId_context _ _ _ Hc2).
  intros Hid. apply app_inv_tail in Hid.
  destruct (plugAll_inj fs1 fs2 (focus n1) (focus n2)) as [-> Hf];
    [congruence | done |].
  destruct n1, n2. simpl in *. congruence.
Qed.

(** ** Walks *)

Lemma walkHelper_unfold {S : Type} (walker : Walker S) (d : NodeData)
    (cs : list Tree) (c : list Frame) (s : S) :
  walkHelper walker (MkTree d cs) c s =
  let n := {| focus := MkTree d cs; context := c |} in
  '(s, status) ← walker n true s;
  if bool_decide (status = WalkStop) then mret (s, WalkStop) else
  '(s, st) ←
    (if bool_decide (status = WalkSkipChildren) then mret (s, WalkContinue)
     else walkChildren walker d c [] cs s);
  if bool_decide (st = WalkStop) then mret (s, WalkStop) else
  '(s, status) ← walker n false s;
  if bool_decide (status = WalkStop) then mret (s, WalkStop)
  else mret (s, WalkContinue).
Proof. reflexivity. Qed.

Lemma walkChildren_cons {S : Type} (walker : Walker S) (d : NodeData)
    (c : list Frame) (left : list Tree) (ch : Tree) (rest : list Tree) (s : S) :
  walkChildren walker d c left (ch :: rest) s =
  '(s, st) ← walkHelper walker ch ({| parentData := d; before := left;
                                      after := rest |} :: c) s;
  if bool_decide (st = WalkStop) then mret (s, WalkStop)
  else walkChildren walker d c (ch :: left) rest s.
Proof. reflexivity. Qed.

(** ** Go integers *)

Lemma wrapInt_small (z : Z) : intRange z -> wrapInt z = z.
Proof.
  unfold intRange, wrapInt. intros Hz. rewrite Z.mod_small; lia.
Qed.

Lemma intAdd_wrapInt (x y : Z) : intAdd (wrapInt x) y = wrapInt (x + y).
Proof.
  unfold intAdd, wrapInt.
  replace ((x + 2 ^ 63) mod 2 ^ 64 - 2 ^ 63 + y + 2 ^ 63)%Z
    with ((x + 2 ^ 63) mod 2 ^ 64 + y)%Z by lia.
  rewrite Z.add_mod_idemp_l by lia. f_equal. f_equal. lia.
Qed.

Lemma intSub_wrapInt (x y : Z) : intSub (wrapInt x) y = wrapInt (x - y).
Proof.
  unfold intSub, wrapInt.
  replace ((x + 2 ^ 63) mod 2 ^ 64 - 2 ^ 63 - y + 2 ^ 63)%Z
    with ((x + 2 ^ 63) mod 2 ^ 64 + - y)%Z by lia.
  rewrite Z.add_mod_idemp_l by lia. f_equal. f_equal. lia.
Qed.

(** ** The level map *)

Lemma levelsAt_nil (m : BlockQuoteLevelMap) : levelsAt [] m m.
Proof.
  repeat split; [by intros n Hn%elem_of_nil | by left].
Qed.

Lemma levelsAt_enter (n : Node) (m : BlockQuoteLevelMap) :
  levelsAt [n] m
    (if isBlockquote n then <[nodeId n := depthInt n]> m else m).
Proof.
  repeat split.
  - intros n' ->%list_elem_of_singleton ->. apply lookup_insert_eq.
  - intros k Hk. destruct (isBlockquote n); [| done].
    apply lookup_insert_ne, Hk. by apply list_elem_of_singleton.
  - intros k v. destruct (isBlockquote n) eqn:Hb; [| by left].
    destruct (decide (nodeId n = k)) as [<- | Hne].
    + right. exists n. by rewrite list_elem_of_singleton.
    + rewrite lookup_insert_ne by done. by left.
Qed.

Lemma levelsAt_app (ns1 ns2 : list Node) (m m1 m2 : BlockQuoteLevelMap) :
  levelsAt ns1 m m1 -> levelsAt ns2 m1 m2 ->
  (forall a b, a ∈ ns1 -> b ∈ ns2 -> nodeId a <> nodeId b) ->
  levelsAt (ns1 ++ ns2) m m2.
Proof.
  intros (Ha1 & Hb1 & Hc1) (Ha2 & Hb2 & Hc2) Hdis. repeat split.
  - intros n [Hn | Hn]%elem_of_app Hq.
    + rewrite Hb2; [by apply Ha1 |]. intros b Hb Heq. by apply (Hdis n b).
    + by apply Ha2.
  - intros k Hk. rewrite Hb2, Hb1; [done | |];
      intros n Hn; apply Hk, elem_of_app; auto.
  - intros k v Hv. apply Hc2 in Hv as [Hv | (n & Hn & Hq & Hk)].
    + apply Hc1 in Hv as [Hv | (n & Hn & Hq & Hk)]; [by left |].
      right. exists n. rewrite elem_of_app. auto.
    + right. exists n. rewrite elem_of_app. auto.
Qed.

Lemma enclosing_child (ch : Tree) (f : Frame) (c : list Frame) :
  enclosing {| focus := ch; context := f :: c |}
  = (if isBlockquote {| focus := plug f ch; context := c |} then 1 else 0)
    + enclosing {| focus := plug f ch; context := c |}.
Proof.
  unfold enclosing, ancestors. simpl. rewrite filter_cons.
  destruct (isBlockquote _); by case_decide.
Qed.

Lemma id_tail_inj (q1 q2 k : NodeId) (a b : nat) :
  q1 ++ a :: k = q2 ++ b :: k -> a = b.
Proof.
  rewrite !(cons_middle _ _ k), !app_assoc. intros H%app_inv_tail.
  by apply app_inj_tail in H as [_ ?].
Qed.

#[local] Arguments levelWalker : simpl never.

Lemma levelWalker_enter (n : Node) (l : Z) (m : BlockQuoteLevelMap) :
  levelWalker n true (l, m)
  = Ret ((if isBlockquote n then intAdd l 1 else l,
          if isBlockquote n then <[nodeId n := l]> m else m), WalkContinue).
Proof.
  unfold levelWalker, isBlockquote. rewrite !andb_true_r, andb_false_r.
  by destruct (bool_decide _).
Qed.

Lemma levelWalker_leave (n : Node) (l : Z) (m : BlockQuoteLevelMap) :
  levelWalker n false (l, m)
  = Ret ((if isBlockquote n then intSub l 1 else l, m), WalkContinue).
Proof.
  unfold levelWalker, isBlockquote. by rewrite andb_false_r, andb_true_r.
Qed.

Lemma level_walk (t : Tree) :
  forall c m,
    exists m',
      walkHelper levelWalker t c
        (depthInt {| focus := t; context := c |}, m)
      = Ret ((depthInt {| focus := t; context := c |}, m'), WalkContinue)
      /\ levelsAt (subnodesFrom t c) m m'.
Proof.
  induction t as [d cs IH] using Tree_ind_nested. intros c m.
  set (n0 := {| focus := MkTree d cs; context := c |}).
  set (l1 := wrapInt (Z.of_nat ((if isBlockquote n0 then 1 else 0)
                                + enclosing n0))).
  assert (Hloop : forall rest, Forall (fun t => forall c m, exists m',
              walkHelper levelWalker t c
                (depthInt {| focus := t; context := c |}, m)
              = Ret ((depthInt {| focus := t; context := c |}, m'),
                     WalkContinue)
              /\ levelsAt (subnodesFrom t c) m m') rest ->
            forall left m1, rev_append left rest = cs ->
            exists m',
              walkChildren levelWalker d c left rest (l1, m1)
              = Ret ((l1, m'), WalkContinue)
              /\ levelsAt (subnodesBelow d c left rest) m1 m').
  { clear IH. induction 1 as [|ch rest Hch _ IHrest]; intros left m1 Hcs.
    - exists m1. split; [done | apply levelsAt_nil].
    - set (f := {| parentData := d; before := left; after := rest |}).
      destruct (Hch (f :: c) m1) as (m2 & Hw & Hl2).
      assert (Hd : depthInt {| focus := ch; context := f :: c |} = l1).
      { unfold depthInt. rewrite enclosing_child. unfold plug. simpl.
        by rewrite Hcs. }
      rewrite Hd in Hw.
      destruct (IHrest (ch :: left) m2 Hcs) as (m3 & Hw3 & Hl3).
      exists m3. split.
      + rewrite walkChildren_cons. fold f. rewrite Hw. simpl. apply Hw3.
      + rewrite subnodesBelow_cons. fold f.
        apply (levelsAt_app _ _ _ m2); [done | done |].
        intros a b (fa & Hca & _)%subnodes_context
                   (fb & g & Hcb & _ & Hlen & _)%below_context.
        rewrite (nodeId_context _ _ _ Hca), (nodeId_context _ _ _ Hcb).
        simpl. intros Heq%id_tail_inj. simpl in Hlen. lia. }
  destruct (Hloop cs IH [] (if isBlockquote n0
                            then <[nodeId n0 := depthInt n0]> m else m)
              eq_refl) as (m' & Hw & Hl).
  exists m'. split.
  - rewrite walkHelper_unfold. fold n0. cbv zeta.
    rewrite levelWalker_enter. simpl.
    replace (if isBlockquote n0 then intAdd (depthInt n0) 1 else depthInt n0)
      with l1.
    2:{ unfold l1, depthInt. destruct (isBlockquote n0).
        - rewrite intAdd_wrapInt. f_equal. lia.
        - done. }
    rewrite Hw. simpl. rewrite levelWalker_leave. simpl.
    do 3 f_equal. unfold l1, depthInt. destruct (isBlockquote n0); [| done].
    rewrite intSub_wrapInt. f_equal. lia.
  - rewrite subnodesFrom_unfold. fold n0.
    apply (levelsAt_app [n0] _ _ _ _ (levelsAt_enter n0 m) Hl).
    intros a b ->%list_elem_of_singleton
               (fb & g & Hcb & _)%below_context.
    rewrite (nodeId_context _ _ _ Hcb). unfold nodeId. simpl. fold (idOf c).
    intros Heq. apply (f_equal (@List.length nat)) in Heq.
    rewrite length_app in Heq. simpl in Heq. lia.
Qed.

Lemma GenerateBlockQuoteLevel_levels (someNode : Node) :
  exists m, GenerateBlockQuoteLevel someNode = Ret m /\
            levelsAt (subnodes (rootOf someNode)) ∅ m.
Proof.
  unfold GenerateBlockQuoteLevel, Walk, subnodes, rootOf.
  rewrite rootFrom_plugAll. simpl focus. simpl context.
  destruct (level_walk (plugAll (focus someNode) (context someNode)) [] ∅)
    as (m & Hw & Hl).
  exists m. split; [| done].
  change (depthInt _) with 0%Z in Hw. by rewrite Hw.
Qed.

Lemma nearest_enclosing (n a : Node) :
  nearestBlockquote n = Some a ->
  a ∈ ancestors n /\ isBlockquote a = true /\ enclosing n = S (enclosing a).
Proof.
  unfold nearestBlockquote, enclosing, ancestors. destruct n as [t c].
  simpl. revert t. induction c as [|f c IH]; intros t; simpl; [done |].
  rewrite filter_cons. case_decide as Hb.
  - intros [= <-]. split; [apply elem_of_cons; by left | done].
  - intros (Ha & Hq & He)%IH. split; [apply elem_of_cons; by right | done].
Qed.

Lemma nearest_none (n : Node) :
  nearestBlockquote n = None -> enclosing n = 0.
Proof.
  unfold nearestBlockquote, enclosing.
  by destruct (filter _ (ancestors n)).
Qed.

Lemma ancestors_rootOf (n a : Node) : a ∈ ancestors n -> rootOf a = rootOf n.
Proof.
  unfold ancestors, rootOf. destruct n as [t c]. simpl. revert t.
  induction c as [|f c IH]; intros t; simpl; [by intros ?%elem_of_nil |].
  intros [-> | Ha]%elem_of_cons; [done | by apply IH].
Qed.

Lemma in_document_ancestor (r n a : Node) :
  context r = [] -> n ∈ subnodes r -> a ∈ ancestors n -> a ∈ subnodes r.
Proof.
  intros Hr Hn Ha. rewrite <- (rootOf_subnodes r n Hr Hn).
  rewrite <- (ancestors_rootOf n a Ha). apply subnodes_rootOf.
Qed.

Lemma isBlockquote_Kind (n : Node) :
  isBlockquote n = true <-> Kind n = KindBlockquote.
Proof. unfold isBlockquote. apply bool_decide_eq_true. Qed.

Lemma Level_lookup (m : BlockQuoteLevelMap) (n : Node) (d : Z) :
  m !! nodeId n = Some d -> Level m n = d.
Proof. unfold Level. by intros ->. Qed.

(** C2.  [GenerateBlockQuoteLevel] returns, from any node of a document, the
    map over the whole document (it first climbs to the root): every
    blockquote below the root has an entry, 0 at the top level and one more
    than the entry of the nearest enclosing blockquote otherwise (the number
    of enclosing blockquotes, as long as that is a Go [int]); every entry is
    the entry of a blockquote, and of one only; and [Level] answers 0 for a
    node without an entry. *)
Theorem level_map_of_document (someNode : Node) :
  exists m,
    GenerateBlockQuoteLevel someNode = Ret m /\
    (forall n, sameDocument n someNode -> Kind n = KindBlockquote ->
       m !! nodeId n
       = Some (match nearestBlockquote n with
               | None => 0%Z
               | Some a => intAdd (Level m a) 1
               end) /\
       ((Z.of_nat (enclosing n) < 2 ^ 63)%Z ->
        m !! nodeId n = Some (Z.of_nat (enclosing n)))) /\
    (forall k d, m !! k = Some d ->
       exists n, sameDocument n someNode /\ nodeId n = k /\
                 Kind n = KindBlockquote) /\
    (forall n1 n2, sameDocument n1 someNode -> sameDocument n2 someNode ->
       nodeId n1 = nodeId n2 -> n1 = n2) /\
    (forall n, m !! nodeId n = None -> Level m n = 0%Z).
Proof.
  destruct (GenerateBlockQuoteLevel_levels someNode) as (m & Hm & Ha & Hb & Hc).
  exists m. split; [done |]. split; [| split; [| split]].
  - intros n Hn%sameDocument_subnodes Hk%isBlockquote_Kind.
    rewrite (Ha n Hn Hk). split.
    + destruct (nearestBlockquote n) as [a|] eqn:Hnear.
      * apply nearest_enclosing in Hnear as (Hanc & Hq & He).
        rewrite (Level_lookup m a (depthInt a)).
        -- unfold depthInt. rewrite intAdd_wrapInt, He. do 2 f_equal. lia.
        -- apply Ha; [| done].
           by apply (in_document_ancestor _ n); [apply rootOf_context | |].
      * unfold depthInt. by rewrite (nearest_none n Hnear).
    + intros Hlt. unfold depthInt.
      rewrite wrapInt_small; [done | unfold intRange; lia].
  - intros k d [Hd | (n & Hn & Hq & Hk)]%Hc; [by rewrite lookup_empty in Hd |].
    exists n. by rewrite sameDocument_subnodes, <- isBlockquote_Kind.
  - intros n1 n2 Hn1%sameDocument_subnodes Hn2%sameDocument_subnodes.
    by apply (nodeId_inj _ _ n1 n2 Hn1 Hn2).
  - intros n Hn. unfold Level. by rewrite Hn.
Qed.

Lemma no_level_outside_blockquotes (someNode n : Node) (m : BlockQuoteLevelMap) :
  GenerateBlockQuoteLevel someNode = Ret m ->
  sameDocument n someNode -> Kind n <> KindBlockquote ->
  m !! nodeId n = None.
Proof.
  destruct (GenerateBlockQuoteLevel_levels someNode) as (m' & Hm & Ha & Hb & Hc).
  rewrite Hm. intros [= <-] Hn%sameDocument_subnodes Hk.
  destruct (m' !! nodeId n) as [d|] eqn:Hd; [| done].
  apply Hc in Hd as [Hd | (n' & Hn' & Hq & Hid)];
    [by rewrite lookup_empty in Hd |].
  apply (nodeId_inj _ _ _ _ Hn' Hn) in Hid as ->.
  by apply isBlockquote_Kind in Hq.
Qed.

(** C2, run from the admonition inside the outer quote of the nested
    document. *)
Lemma level_map_of_document_witness :
  exists m,
    GenerateBlockQuoteLevel nestedAdmonition = Ret m /\
    m !! nodeId outerQuote = Some 0%Z /\
    m !! nodeId innerQuote = Some 2%Z /\
    Level m nestedAdmonition = 0%Z.
Proof.
  destruct (level_map_of_document nestedAdmonition)
    as (m & Hm & Hquotes & _ & _ & Hdefault).
  exists m. split; [exact Hm |].
  split; [| split].
  - destruct (Hquotes outerQuote eq_refl eq_refl) as [_ Hn].
    apply Hn. vm_compute. reflexivity.
  - destruct (Hquotes innerQuote eq_refl eq_refl) as [_ Hn].
    apply Hn. vm_compute. reflexivity.
  - apply Hdefault. vm_compute in Hm. injection Hm as <-. vm_compute.
    reflexivity.
Defined.

(* --------------------------------------------------------------------- *)
(** ** Walks in general *)
(* --------------------------------------------------------------------- *)

Lemma bind_Ret_inv {A B : Type} (m : go A) (f : A -> go B) (b : B) :
  m ≫= f = Ret b -> exists a, m = Ret a /\ f a = Ret b.
Proof. destruct m as [a|p]; simpl; [eauto | done]. Qed.

(** A property of the state that every call of the walker keeps while the
    walk goes on ([I]), and the one it establishes when it stops ([J]). *)
Lemma walk_invariant {S : Type} (walker : Walker S) (Inv Fin : S -> Prop) :
  (forall n e s s' st, Inv s -> walker n e s = Ret (s', st) ->
     if bool_decide (st = WalkStop) then Fin s' else Inv s') ->
  forall t c s s' st, Inv s -> walkHelper walker t c s = Ret (s', st) ->
    (st = WalkStop \/ st = WalkContinue) /\
    if bool_decide (st = WalkStop) then Fin s' else Inv s'.
Proof.
  intros Hstep. induction t as [d cs IH] using Tree_ind_nested.
  intros c s s' st Hs. rewrite walkHelper_unfold. cbv zeta.
  intros ([s1 st1] & Hw1 & Hrest)%bind_Ret_inv.
  pose proof (Hstep _ _ _ _ _ Hs Hw1) as H1.
  case_bool_decide as Hst1.
  { (cbv [mret go_ret] in Hrest; simplify_eq). split; [by left | by case_bool_decide]. }
  assert (Hloop : forall rest, Forall (fun t => forall c s s' st, Inv s ->
              walkHelper walker t c s = Ret (s', st) ->
              (st = WalkStop \/ st = WalkContinue) /\
              if bool_decide (st = WalkStop) then Fin s' else Inv s') rest ->
            forall left s s' st, Inv s ->
              walkChildren walker d c left rest s = Ret (s', st) ->
              (st = WalkStop \/ st = WalkContinue) /\
              if bool_decide (st = WalkStop) then Fin s' else Inv s').
  { clear. induction 1 as [|ch rest Hch _ IHrest]; intros left s s' st Hs.
    - cbv [mret go_ret]. intros [= <- <-]. split; [by right | by case_bool_decide].
    - rewrite walkChildren_cons.
      intros ([s2 st2] & Hw2 & Hrest)%bind_Ret_inv.
      apply Hch in Hw2 as [_ H2]; [| done].
      case_bool_decide.
      + (cbv [mret go_ret] in Hrest; simplify_eq). split; [by left | by case_bool_decide].
      + by apply IHrest in Hrest. }
  apply bind_Ret_inv in Hrest as ([s2 st2] & Hw2 & Hrest).
  assert (H2 : (st2 = WalkStop \/ st2 = WalkContinue) /\
               if bool_decide (st2 = WalkStop) then Fin s2 else Inv s2).
  { destruct (bool_decide (st1 = WalkSkipChildren)).
    - cbv [mret go_ret] in Hw2. simplify_eq.
      split; [by right | by case_bool_decide].
    - by apply (Hloop cs IH) in Hw2. }
  destruct H2 as [_ H2]. case_bool_decide as Hst2.
  { (cbv [mret go_ret] in Hrest; simplify_eq). split; [by left | by case_bool_decide]. }
  apply bind_Ret_inv in Hrest as ([s3 st3] & Hw3 & Hrest).
  pose proof (Hstep _ _ _ _ _ H2 Hw3) as H3.
  case_bool_decide; (cbv [mret go_ret] in Hrest; simplify_eq); (split; [auto | by case_bool_decide]).
Qed.

(** Observing a walk does not change it. *)
Lemma observed_walk {S G : Type} (walker : Walker S)
    (observe : Node -> bool -> S -> G -> G) (t : Tree) :
  forall c s g,
    forget (walkHelper (observed walker observe) t c (s, g))
    = walkHelper walker t c s.
Proof.
  induction t as [d cs IH] using Tree_ind_nested. intros c s g.
  assert (Hloop : forall rest, Forall (fun t => forall c s g,
              forget (walkHelper (observed walker observe) t c (s, g))
              = walkHelper walker t c s) rest ->
            forall left s g,
              forget (walkChildren (observed walker observe) d c left rest
                        (s, g))
              = walkChildren walker d c left rest s).
  { clear. induction 1 as [|ch rest Hch _ IHrest]; intros left s g; [done |].
    rewrite !walkChildren_cons.
    rewrite <- (Hch ({| parentData := d; before := left; after := rest |}
                     :: c) s g).
    destruct (walkHelper (observed walker observe) ch _ (s, g))
      as [[[s1 g1] st1]|p]; [| done].
    simpl. case_bool_decide; [done |]. apply IHrest. }
  rewrite !walkHelper_unfold. cbv zeta.
  set (n0 := {| focus := MkTree d cs; context := c |}).
  unfold observed at 1. simpl.
  destruct (walker n0 true s) as [[s1 st1]|p]; [| done]. simpl.
  case_bool_decide; [done |].
  case_bool_decide.
  - simpl. unfold observed. simpl.
    destruct (walker n0 false s1) as [[s3 st3]|p]; [| done]. simpl.
    by case_bool_decide.
  - rewrite <- (Hloop cs IH [] s1 (observe n0 true s g)).
    destruct (walkChildren (observed walker observe) d c [] cs _)
      as [[[s2 g2] st2]|p]; [| done].
    simpl. case_bool_decide; [done |]. unfold observed. simpl.
    destruct (walker n0 false s2) as [[s3 st3]|p]; [| done]. simpl.
    by case_bool_decide.
Qed.

#[local] Arguments parseWalker : simpl never.

Lemma walk_returns {S : Type} (walker : Walker S) (OK : Node -> Prop) :
  (forall n e s, OK n -> returns (walker n e s)) -> hereditary OK ->
  forall t c s, OK {| focus := t; context := c |} ->
    returns (walkHelper walker t c s).
Proof.
  intros Hw Hher. induction t as [d cs IH] using Tree_ind_nested.
  intros c s Hok. set (n0 := {| focus := MkTree d cs; context := c |}) in *.
  assert (Hloop : forall rest, Forall (fun t => forall c s,
              OK {| focus := t; context := c |} ->
              returns (walkHelper walker t c s)) rest ->
            forall left s, rev_append left rest = cs ->
              returns (walkChildren walker d c left rest s)).
  { clear IH. induction 1 as [|ch rest Hch _ IHrest]; intros left s1 Hcs.
    - by eexists.
    - rewrite walkChildren_cons.
      destruct (Hch ({| parentData := d; before := left; after := rest |}
                     :: c) s1) as [[s2 st2] ->].
      { apply Hher. by rewrite Hcs. }
      simpl. case_bool_decide; [by eexists | by apply IHrest]. }
  rewrite walkHelper_unfold. fold n0. cbv zeta.
  destruct (Hw n0 true s Hok) as [[s1 st1] ->]. simpl.
  case_bool_decide; [by eexists |].
  assert (Hmid : returns (if bool_decide (st1 = WalkSkipChildren)
                          then mret (s1, WalkContinue)
                          else walkChildren walker d c [] cs s1)).
  { case_bool_decide; [by eexists | by apply Hloop]. }
  destruct Hmid as [[s2 st2] ->]. simpl.
  case_bool_decide; [by eexists |].
  destruct (Hw n0 false s2 Hok) as [[s3 st3] ->]. simpl.
  case_bool_decide; by eexists.
Qed.

Lemma forallb_Forall_true {A : Type} (f : A -> bool) (l : list A) :
  forallb f l = true <-> Forall (fun x => f x = true) l.
Proof.
  induction l as [|x l IH]; simpl.
  - split; [constructor | done].
  - rewrite andb_true_iff, Forall_cons, IH. done.
Qed.

Lemma nodeOK_hereditary (source : string) :
  hereditary (fun n => nodeOK source n = true).
Proof.
  intros d left ch rest c. unfold nodeOK, frameOK. simpl.
  rewrite rev_append_rev, !andb_true_iff, !forallb_Forall_true.
  rewrite Forall_app, Forall_cons.
  intros [[Hd (Hl & Hc & Hr)] Hctx]. repeat split; try done.
  apply Forall_forall. intros x Hx. rewrite Forall_forall in Hl.
    apply Hl, list_elem_of_In. rewrite <- in_rev. by apply list_elem_of_In.
Qed.

Lemma Segment_Value_returns (source : string) (s : Segment) :
  segmentOK source s = true -> returns (Segment_Value s source).
Proof.
  unfold segmentOK, Segment_Value, slice.
  rewrite !andb_true_iff, !bool_decide_eq_true. intros [[[Hp Hs] Hss] He].
  assert (Hin : (0 <=? Start s)%Z && (Start s <=? Stop s)%Z
                && (Stop s <=? Z.of_nat (String.length source))%Z = true).
  { rewrite !andb_true_iff, !Z.leb_le. done. }
  rewrite Hin. case_bool_decide; [by eexists |].
  rewrite bool_decide_eq_false_2 by lia. by eexists.
Qed.

Lemma legacy_returns (s : string) :
  returns (ClassifyingBlockQuote LegacyBlockQuoteClassifier s).
Proof. rewrite legacy_classify. by eexists. Qed.

Lemma alerts_returns (s : string) :
  returns (ClassifyingBlockQuote GHAlertsBlockQuoteClassifier s).
Proof. rewrite alerts_classify. by eexists. Qed.

Lemma asText_returns (source : string) (n : Node) :
  nodeOK source n = true -> Kind n = KindText ->
  exists seg, asText n = Ret seg /\ segmentOK source seg = true.
Proof.
  unfold nodeOK, Kind, asText. destruct (focus n) as [d cs]. simpl.
  rewrite !andb_true_iff. intros [[Hd _] _] Hk.
  destruct d as [seg| | |k]; try done.
  - by exists seg.
  - simpl in *. subst k. rewrite andb_true_iff, !bool_decide_eq_true in Hd.
    by destruct Hd.
Qed.

Lemma asHTMLBlock_returns (source : string) (n : Node) :
  nodeOK source n = true -> Kind n = KindHTMLBlock ->
  exists lines, asHTMLBlock n = Ret lines /\
                forallb (segmentOK source) lines = true.
Proof.
  unfold nodeOK, Kind, asHTMLBlock. destruct (focus n) as [d cs]. simpl.
  rewrite !andb_true_iff. intros [[Hd _] _] Hk.
  destruct d as [|lines| |k]; try done.
  - by exists lines.
  - simpl in *. subst k. rewrite andb_true_iff, !bool_decide_eq_true in Hd.
    by destruct Hd.
Qed.

Lemma NextSibling_OK (source : string) (n m : Node) :
  nodeOK source n = true -> NextSibling n = Some m -> nodeOK source m = true.
Proof.
  unfold nodeOK, NextSibling. destruct n as [t [|f c]]; simpl; [done |].
  destruct f as [d l [|r rs]]; simpl; [done |].
  unfold frameOK. simpl. rewrite !andb_true_iff.
  intros (Ht & (Hl & Hr & Hrs) & Hc) [= <-]. simpl.
  rewrite !andb_true_iff. done.
Qed.

Lemma classifyLines_returns (source : string) (lines : list Segment)
    (t : BlockQuoteType) :
  forallb (segmentOK source) lines = true ->
  returns (classifyLines lines source t).
Proof.
  revert t. induction lines as [|line rest IH]; intros t; simpl.
  - by eexists.
  - rewrite andb_true_iff. intros [Hl Hr].
    destruct (Segment_Value_returns source line Hl) as [v ->]. simpl.
    destruct (legacy_returns v) as [t' ->]. simpl.
    case_bool_decide; [by eexists | by apply IH].
Qed.

Lemma bracketAlert_returns (source : string) (node : Node) (n : Segment)
    (t : BlockQuoteType) :
  nodeOK source node = true -> segmentOK source n = true ->
  returns (bracketAlert source node n t).
Proof.
  intros Hok Hn. unfold bracketAlert.
  destruct (NextSibling node) as [mid|] eqn:Hmid; [| by eexists].
  pose proof (NextSibling_OK source node mid Hok Hmid) as Hmok.
  case_bool_decide as Hmk; [| by eexists].
  destruct (asText_returns source mid Hmok Hmk) as (ms & -> & Hms). simpl.
  destruct (NextSibling mid) as [right|] eqn:Hright; [| by eexists].
  pose proof (NextSibling_OK source mid right Hmok Hright) as Hrok.
  case_bool_decide as Hrk; [| by eexists].
  destruct (asText_returns source right Hrok Hrk) as (rs & -> & Hrs). simpl.
  destruct (Segment_Value_returns source n Hn) as [v ->]. simpl.
  case_bool_decide; [| by eexists].
  destruct (Segment_Value_returns source rs Hrs) as [rv ->]. simpl.
  case_bool_decide; [| by eexists].
  destruct (Segment_Value_returns source ms Hms) as [mv ->]. simpl.
  apply alerts_returns.
Qed.

Lemma parseWalker_returns (source : string) (n : Node) (e : bool)
    (s : BlockQuoteType * Z) :
  nodeOK source n = true -> returns (parseWalker source n e s).
Proof.
  intros Hok. destruct s as [t c]. unfold parseWalker. cbv zeta.
  set (k := if bool_decide (Kind n = KindParagraph) && e
            then intAdd c 1 else c). clearbody k.
  destruct (bool_decide (k < 2)%Z && e); [| destruct (_ && _); by eexists].
  assert (H1 : returns
            (if bool_decide (Kind n = KindText)
             then seg ← asText n;
                  v ← Segment_Value seg source;
                  t ← ClassifyingBlockQuote LegacyBlockQuoteClassifier v;
                  t ← (if bool_decide (t = BlockQuoteType.None)
                       then bracketAlert source n seg t else mret t);
                  mret (t, intAdd k 1)
             else mret (t, k))).
  { case_bool_decide as Hk; [| by eexists].
    destruct (asText_returns source n Hok Hk) as (seg & -> & Hseg). simpl.
    destruct (Segment_Value_returns source seg Hseg) as [v ->]. simpl.
    destruct (legacy_returns v) as [t' ->]. simpl.
    case_bool_decide; [| by eexists].
    destruct (bracketAlert_returns source n seg t' Hok Hseg) as [t'' ->].
    by eexists. }
  destruct H1 as [[t1 k1] ->]. simpl.
  case_bool_decide as Hk; [| by eexists].
  destruct (asHTMLBlock_returns source n Hok Hk) as (lines & -> & Hl). simpl.
  destruct (classifyLines_returns source lines t1 Hl) as [t2 ->]. by eexists.
Qed.

Lemma parseWalk_returns (source : string) (node : Node) :
  nodeOK source node = true -> returns (parseWalk node source).
Proof.
  intros Hok. unfold parseWalk, Walk.
  apply (walk_returns _ (fun n => nodeOK source n = true)).
  - intros n e s. apply parseWalker_returns.
  - apply nodeOK_hereditary.
  - by destruct node.
Qed.

(** X6.  On a document as the parser hands it over, every text and every
    raw HTML line within the source and the nodes of the text and the raw
    HTML kind of the Go types of these kinds, [ParseBlockQuoteType] returns
    a type: no slice runs out of range and no type assertion fails. *)
Theorem ParseBlockQuoteType_returns (source : string) (node : Node) :
  nodeOK source node = true -> returns (ParseBlockQuoteType node source).
Proof.
  intros [[[t c] st] Hw]%parseWalk_returns. unfold ParseBlockQuoteType.
  rewrite Hw. by eexists.
Qed.

(* --------------------------------------------------------------------- *)
(** ** ParseBlockQuoteType *)
(* --------------------------------------------------------------------- *)

Ltac go_inv H :=
  repeat match type of H with
         | _ ≫= _ = Ret _ =>
             let a := fresh "a" in let Ha := fresh "Ha" in
             apply bind_Ret_inv in H as (a & Ha & H)
         end.

(** The two inspections of the walker leave the counter one higher, or
    panic. *)
Lemma parseWalker_visit (source : string) (n : Node) (e : bool)
    (t : BlockQuoteType) (c : Z) (st : BlockQuoteType * Z)
    (status : WalkStatus) :
  parseWalker source n e (t, c) = Ret (st, status) ->
  st.2 = (if inspects n e c then intAdd (counterAt n e c) 1
          else counterAt n e c) /\
  (status = WalkStop <-> e = true /\ (1 < counterAt n e c)%Z).
Proof.
  unfold parseWalker, inspects. cbv zeta.
  change (if bool_decide (Kind n = KindParagraph) && e then intAdd c 1 else c)
    with (counterAt n e c).
  set (k := counterAt n e c). clearbody k.
  destruct (bool_decide (k < 2)%Z) eqn:Hk; destruct e; simpl.
  - apply bool_decide_eq_true in Hk.
    intros ([t1 k1] & H1 & ([t2 k2] & H2 & H3)%bind_Ret_inv)%bind_Ret_inv.
    cbv [mret go_ret] in H3. simplify_eq.
    assert (Hne : KindText <> KindHTMLBlock) by done.
    destruct (bool_decide (Kind n = KindText)) eqn:Ht;
      destruct (bool_decide (Kind n = KindHTMLBlock)) eqn:Hh.
    + apply bool_decide_eq_true in Ht, Hh. congruence.
    + go_inv H1. cbv [mret go_ret] in H1, H2. simplify_eq. simpl.
      split; [done |]. intuition (try discriminate; try lia).
    + go_inv H2. cbv [mret go_ret] in H1, H2. simplify_eq. simpl.
      split; [done |]. intuition (try discriminate; try lia).
    + cbv [mret go_ret] in H1, H2. simplify_eq. simpl.
      split; [done |]. intuition (try discriminate; try lia).
  - cbv [mret go_ret]. rewrite andb_false_r. intros ?. simplify_eq. simpl.
    split; [done |].
    intuition (try discriminate; try lia).
  - apply bool_decide_eq_false in Hk.
    rewrite bool_decide_eq_true_2 by lia. cbv [mret go_ret]. simpl.
    intros ?. simplify_eq. simpl. split; [done |].
    intuition (try discriminate; try lia).
  - cbv [mret go_ret]. rewrite andb_false_r. intros ?. simplify_eq. simpl.
    split; [done |].
    intuition (try discriminate; try lia).
Qed.

(** A visit that does not inspect its node leaves the type as it is. *)
Lemma parseWalker_keeps (source : string) (n : Node) (e : bool)
    (t : BlockQuoteType) (c : Z) (st : BlockQuoteType * Z)
    (status : WalkStatus) :
  parseWalker source n e (t, c) = Ret (st, status) ->
  inspects n e c = false -> st.1 = t.
Proof.
  unfold parseWalker, inspects. cbv zeta.
  change (if bool_decide (Kind n = KindParagraph) && e then intAdd c 1 else c)
    with (counterAt n e c).
  set (k := counterAt n e c). clearbody k.
  destruct (bool_decide (k < 2)%Z && e); simpl.
  - intros Hw [Ht Hh]%orb_false_elim. rewrite Ht, Hh in Hw.
    cbv [mret go_ret mbind go_bind] in Hw. by simplify_eq.
  - intros Hw _.
    destruct (bool_decide (k > 1)%Z && e); cbv [mret go_ret] in Hw;
      by simplify_eq.
Qed.

Lemma intAdd_small (a b : Z) : intRange (a + b) -> intAdd a b = (a + b)%Z.
Proof. apply wrapInt_small. Qed.

Lemma tally_step (source : string) (n : Node) (e : bool)
    (s s' : (BlockQuoteType * Z) * Tally) (st : WalkStatus) :
  counted 0 2 s ->
  observed (parseWalker source) tally n e s = Ret (s', st) ->
  if bool_decide (st = WalkStop) then counted 2 3 s' else counted 0 2 s'.
Proof.
  destruct s as [[t c] g]. unfold counted, observed. simpl.
  intros Hinv ([st' status] & Hw & Hs)%bind_Ret_inv.
  cbv [mret go_ret] in Hs. simplify_eq. destruct Hinv as (Hc & Hr & Hi).
  apply parseWalker_visit in Hw as [Hc' Hstop]. simpl. rewrite Hc'.
  unfold inspects, counterAt in *. clear Hc'.
  assert (Hadd : intAdd c 1 = (c + 1)%Z)
    by (apply intAdd_small; unfold intRange; lia).
  assert (Hadd2 : (c < 1)%Z -> intAdd (c + 1) 1 = (c + 2)%Z).
  { intros. rewrite intAdd_small; unfold intRange; lia. }
  rewrite Hadd in *.
  destruct (bool_decide_reflect (st = WalkStop)) as [Hst | Hst];
    [apply Hstop in Hst as [-> Hst]
    | assert (e = true -> ~ (1 < (if bool_decide (Kind n = KindParagraph) && e
                                   then c + 1 else c))%Z) as Hgo
        by (intros He Hk; by apply Hst, Hstop)];
    clear Hstop;
    destruct (bool_decide_reflect (Kind n = KindParagraph)) as [Hp | Hp];
    destruct (bool_decide_reflect (Kind n = KindText)) as [Ht | Ht];
    destruct (bool_decide_reflect (Kind n = KindHTMLBlock)) as [Hh | Hh];
    try congruence; try destruct e; simpl in *;
    try (specialize (Hgo eq_refl));
    repeat match goal with
           | |- context [bool_decide ?P] => destruct (bool_decide_reflect P)
           end;
    simpl; rewrite ?Hadd, ?Hadd2 by lia; lia.
Qed.

Lemma tallied_forget (node : Node) (source : string) :
  forget (talliedWalk node source) = parseWalk node source.
Proof. apply observed_walk. Qed.

(** C4, amended.  The counter of [ParseBlockQuoteType] goes up by one at
    every entering visit of a paragraph and by one more at every visit that
    inspects a text node or a raw HTML block; a visit inspects only when it
    is an entering visit that finds the counter below 2, and a visit that
    does not inspect leaves the type as it is; so a walk inspects at most
    two nodes and its counter ends as the paragraphs entered plus the nodes
    inspected; and the walker stops the walk exactly at an entering visit
    that finds the counter above 1, never at a leaving one.  On a document
    as the parser hands it over the walk returns. *)
Theorem parse_counter_and_halting (source : string) (node : Node) :
  (forall n entering t c st status,
     parseWalker source n entering (t, c) = Ret (st, status) ->
     st.2 = (if inspects n entering c then intAdd (counterAt n entering c) 1
             else counterAt n entering c) /\
     (status = WalkStop <->
      entering = true /\ (1 < counterAt n entering c)%Z) /\
     (inspects n entering c = true ->
      entering = true /\ (counterAt n entering c < 2)%Z /\
      (Kind n = KindText \/ Kind n = KindHTMLBlock)) /\
     (inspects n entering c = false -> st.1 = t)) /\
  (forall st g status,
     talliedWalk node source = Ret ((st, g), status) ->
     parseWalk node source = Ret (st, status) /\
     st.2 = Z.of_nat (paragraphsEntered g + inspected g) /\
     inspected g <= 2 /\
     (status = WalkStop -> (2 <= st.2)%Z)) /\
  (forall st status,
     parseWalk node source = Ret (st, status) ->
     exists g, talliedWalk node source = Ret ((st, g), status)) /\
  (nodeOK source node = true -> returns (parseWalk node source)).
Proof.
  split; [| split; [| split]]; [| | | apply parseWalk_returns].
  - intros n entering t c st status Hw.
    destruct (parseWalker_visit source n entering t c st status Hw)
      as [Hcount Hstop].
    split; [done |]. split; [done |]. split.
    + unfold inspects.
      intros [[Hc ->]%andb_prop Hk%orb_prop]%andb_prop.
      apply bool_decide_eq_true in Hc.
      split; [done |]. split; [done |].
      destruct Hk as [Hk | Hk]; apply bool_decide_eq_true in Hk; auto.
    + by apply (parseWalker_keeps source n entering t c st status).
  - intros st g status Hw. split.
    { rewrite <- tallied_forget, Hw. done. }
    unfold talliedWalk, Walk in Hw.
    apply (walk_invariant _ (counted 0 2) (counted 2 3)) in Hw
      as [_ Hfin].
    + case_bool_decide as Hst.
      * destruct Hfin as (Hc & Hr & Hi). simpl in *. repeat split; [done.. | lia].
      * destruct Hfin as (Hc & Hr & Hi). simpl in *. repeat split; done.
    + intros n e s s' st'. apply tally_step.
    + unfold counted. simpl. lia.
  - intros st status Hw. rewrite <- tallied_forget in Hw.
    destruct (talliedWalk node source) as [[[st' g] status']|p]; [| done].
    simpl in Hw. cbv [mret go_ret] in Hw. simplify_eq. by exists g.
Qed.

(** C4 as stated fails.  In a quote of one paragraph of one text the counter
    ends at 2 with one paragraph entered, and the walk runs to its end
    although the counter is above 1.  In a quote of one paragraph of a text
    and an emphasis the code inspects the first text only and answers
    [None], where a counter of paragraph entries would let the walk reach
    the emphasis and answer [Note]. *)
Lemma counter_is_not_the_paragraph_count :
  (exists st g status,
     talliedWalk noteQuote noteSource = Ret ((st, g), status) /\
     paragraphsEntered g = 1 /\ st.2 = 2%Z /\
     (1 < st.2)%Z /\ status = WalkContinue) /\
  ParseBlockQuoteType emphasisQuote emphasisSource = Ret BlockQuoteType.None /\
  specParseBlockQuoteType emphasisQuote emphasisSource
  = Ret BlockQuoteType.Note.
Proof.
  split; [| split; vm_compute; reflexivity].
  exists (BlockQuoteType.Note, 2%Z),
    {| paragraphsEntered := 1; inspected := 1 |}, WalkContinue.
  repeat split; vm_compute; reflexivity.
Qed.

(** C3, where the code departs from it.  In a quote whose first block is a
    heading the first inspected text classifies as [Note], the text of the
    emphasis after it is inspected too and classifies as [None], and [None]
    is the result; likewise for a quote of two raw HTML blocks, the first of
    which classifies as [Note]. *)
Lemma later_node_overwrites_type :
  ClassifyingBlockQuote LegacyBlockQuoteClassifier "Note "
    = Ret BlockQuoteType.Note /\
  ParseBlockQuoteType headingQuote headingSource = Ret BlockQuoteType.None /\
  ClassifyingBlockQuote LegacyBlockQuoteClassifier "<b>note</b>"
    = Ret BlockQuoteType.Note /\
  ParseBlockQuoteType htmlQuote htmlSource = Ret BlockQuoteType.None.
Proof. repeat split; vm_compute; reflexivity. Qed.

(** C7, where the code departs from it.  The fragments [[], [!caution],
    []] resolve to [Warn], the Alert classification of the middle one, when
    they stand in a paragraph; in a heading the middle fragment is inspected
    next and the Legacy classifier overwrites the result with [None].  The
    fragments [[], [!TIP], []] resolve to [Tip] in both places. *)
Lemma bracket_alert_overwritten :
  ClassifyingBlockQuote GHAlertsBlockQuoteClassifier "!caution"
    = Ret BlockQuoteType.Warn /\
  ParseBlockQuoteType cautionParagraphQuote cautionSource
    = Ret BlockQuoteType.Warn /\
  ParseBlockQuoteType cautionHeadingQuote cautionSource
    = Ret BlockQuoteType.None /\
  ParseBlockQuoteType tipParagraphQuote tipSource = Ret BlockQuoteType.Tip /\
  ParseBlockQuoteType tipHeadingQuote tipSource = Ret BlockQuoteType.Tip.
Proof. repeat split; vm_compute; reflexivity. Qed.

(** The boundary case of the specification: a quote that opens with a raw
    HTML block with [WARN] on one of its lines is a [Warn], without a look
    at the paragraph after it. *)
Example raw_html_first :
  parseWalk warnQuote warnSource = Ret ((BlockQuoteType.Warn, 2%Z), WalkStop).
Proof. vm_compute. reflexivity. Qed.

(** C4, run on the quote of one paragraph of one text. *)
Lemma parse_counter_and_halting_witness :
  parseWalk noteQuote noteSource
    = Ret ((BlockQuoteType.Note, 2%Z), WalkContinue) /\
  2%Z = Z.of_nat (1 + 1) /\ 1 <= 2.
Proof.
  destruct (parse_counter_and_halting noteSource noteQuote) as (_ & Hwalk & _).
  destruct (Hwalk (BlockQuoteType.Note, 2%Z)
              {| paragraphsEntered := 1; inspected := 1 |} WalkContinue)
    as (Hp & Hc & Hi & _).
  - vm_compute. reflexivity.
  - split; [exact Hp |]. split; [exact Hc | exact Hi].
Defined.

(** ** The quote that opens with a paragraph

    There the counter is 1 when the first text is inspected and 2 after it,
    so that no later node is inspected. *)

#[local] Arguments walkChildren : simpl never.
#[local] Arguments walkHelper : simpl never.

(** With the counter at 2 or above, the first visit of a walk stops it and
    leaves the type as it is. *)
Lemma parseWalker_stops (source : string) (n : Node) (t : BlockQuoteType)
    (c : Z) :
  (2 <= c < 2 ^ 62)%Z ->
  parseWalker source n true (t, c)
  = Ret ((t, counterAt n true c), WalkStop).
Proof.
  intros Hc. unfold parseWalker, counterAt. cbv zeta.
  assert (Hadd : intAdd c 1 = (c + 1)%Z)
    by (apply intAdd_small; unfold intRange; lia).
  rewrite Hadd.
  destruct (bool_decide (Kind n = KindParagraph) && true).
  - rewrite (bool_decide_eq_false_2 (c + 1 < 2)%Z) by lia.
    by rewrite (bool_decide_eq_true_2 (c + 1 > 1)%Z) by lia.
  - rewrite (bool_decide_eq_false_2 (c < 2)%Z) by lia.
    by rewrite (bool_decide_eq_true_2 (c > 1)%Z) by lia.
Qed.

Lemma parseWalker_leaves (source : string) (n : Node) (t : BlockQuoteType)
    (c : Z) :
  parseWalker source n false (t, c) = Ret ((t, c), WalkContinue).
Proof.
  unfold parseWalker. cbv zeta. by rewrite !andb_false_r.
Qed.

Lemma parseWalker_passes (source : string) (n : Node) (t : BlockQuoteType)
    (c : Z) :
  plainKind (Kind n) -> (c < 2)%Z ->
  parseWalker source n true (t, c) = Ret ((t, c), WalkContinue).
Proof.
  intros (Hp & Ht & Hh) Hc. unfold parseWalker. cbv zeta.
  rewrite (bool_decide_eq_false_2 (Kind n = KindParagraph)) by done.
  rewrite (bool_decide_eq_false_2 (Kind n = KindText)) by done.
  rewrite (bool_decide_eq_false_2 (Kind n = KindHTMLBlock)) by done.
  simpl. by rewrite (bool_decide_eq_true_2 (c < 2)%Z) by done.
Qed.

Lemma stopped_walk (source : string) (tr : Tree) (ctx : list Frame)
    (t : BlockQuoteType) (c : Z) :
  (2 <= c < 2 ^ 62)%Z ->
  exists c', walkHelper (parseWalker source) tr ctx (t, c)
             = Ret ((t, c'), WalkStop).
Proof.
  intros Hc. destruct tr as [d cs]. rewrite walkHelper_unfold. cbv zeta.
  rewrite parseWalker_stops by done. simpl. eauto.
Qed.

Lemma stopped_children (source : string) (d : NodeData) (ctx : list Frame)
    (left rest : list Tree) (t : BlockQuoteType) (c : Z) :
  (2 <= c < 2 ^ 62)%Z ->
  exists c' st, walkChildren (parseWalker source) d ctx left rest (t, c)
                = Ret ((t, c'), st) /\
                (st = WalkStop \/ (st = WalkContinue /\ c' = c)).
Proof.
  intros Hc. destruct rest as [|ch rest].
  - exists c, WalkContinue. split; [done | by right].
  - rewrite walkChildren_cons.
    destruct (stopped_walk source ch
                ({| parentData := d; before := left; after := rest |} :: ctx)
                t c Hc) as [c' ->].
    simpl. exists c', WalkStop. split; [done | by left].
Qed.

(** Where the quote opens with a paragraph that opens with a text, that text
    alone decides: the type is its Legacy classification, or, when that is
    [None], what the bracket recovery gives. *)
Theorem first_text_decides (source : string) (d : NodeData) (seg : Segment)
    (rest others : list Tree) (ctx : list Frame) (v : string)
    (t1 : BlockQuoteType) :
  plainKind (dataKind d) ->
  Segment_Value seg source = Ret v ->
  ClassifyingBlockQuote LegacyBlockQuoteClassifier v = Ret t1 ->
  let paragraph := MkTree (Other KindParagraph) (MkTree (Text seg) [] :: rest) in
  let quote := {| focus := MkTree d (paragraph :: others); context := ctx |} in
  let textNode :=
    {| focus := MkTree (Text seg) [];
       context := {| parentData := Other KindParagraph; before := [];
                     after := rest |}
                  :: {| parentData := d; before := []; after := others |}
                  :: ctx |} in
  ParseBlockQuoteType quote source
  = if bool_decide (t1 = BlockQuoteType.None)
    then bracketAlert source textNode seg t1
    else Ret t1.
Proof.
  intros Hd Hv Ht1 paragraph quote textNode. subst paragraph quote.
  unfold ParseBlockQuoteType, parseWalk, Walk. simpl focus. simpl context.
  rewrite walkHelper_unfold. cbv zeta.
  rewrite parseWalker_passes by (done || lia). simpl.
  rewrite walkChildren_cons.
  rewrite walkHelper_unfold. cbv zeta.
  set (pnode := {| focus := MkTree (Other KindParagraph) _; context := _ |}).
  assert (Hpar : parseWalker source pnode true (BlockQuoteType.None, 0%Z)
                 = Ret ((BlockQuoteType.None, 1%Z), WalkContinue)).
  { unfold parseWalker. reflexivity. }
  rewrite Hpar. simpl. rewrite walkChildren_cons, walkHelper_unfold. cbv zeta.
  fold textNode.
  assert (Htext : parseWalker source textNode true (BlockQuoteType.None, 1%Z)
                  = t ← (if bool_decide (t1 = BlockQuoteType.None)
                         then bracketAlert source textNode seg t1
                         else Ret t1);
                    Ret ((t, 2%Z), WalkContinue)).
  { unfold parseWalker. cbv zeta. simpl. rewrite Hv. simpl. rewrite Ht1.
    simpl. change (mret t1) with (Ret t1).
    destruct (if bool_decide (t1 = BlockQuoteType.None)
              then bracketAlert source textNode seg t1
              else Ret t1) as [t2|p]; reflexivity. }
  rewrite Htext.
  destruct (if bool_decide (t1 = BlockQuoteType.None)
            then bracketAlert source textNode seg t1
            else Ret t1) as [t2|p]; [| reflexivity].
  simpl. rewrite ?parseWalker_leaves. simpl.
  destruct (stopped_children source (Other KindParagraph)
              ({| parentData := d; before := []; after := others |} :: ctx)
              [MkTree (Text seg) []] rest t2 2 ltac:(lia))
    as (c1 & st1 & -> & [-> | [-> ->]]); simpl; [reflexivity |].
  rewrite ?parseWalker_leaves. simpl.
  destruct (stopped_children source d ctx
              [MkTree (Other KindParagraph) (MkTree (Text seg) [] :: rest)]
              others t2 2 ltac:(lia))
    as (c2 & st2 & -> & [-> | [-> ->]]); simpl; [reflexivity |].
  rewrite ?parseWalker_leaves. reflexivity.
Qed.

(** X7.  The three fragments of a bracketed alert at the head of the first
    paragraph of a quote resolve to the Alert classification of the middle
    one, whatever follows them. *)
Theorem bracket_alert_in_paragraph (source : string) (d : NodeData)
    (seg mseg rseg : Segment) (rest others : list Tree) (ctx : list Frame)
    (mv : string) :
  plainKind (dataKind d) ->
  Segment_Value seg source = Ret "[" ->
  Segment_Value mseg source = Ret mv ->
  Segment_Value rseg source = Ret "]" ->
  ParseBlockQuoteType
    {| focus := MkTree d
         (MkTree (Other KindParagraph)
            (MkTree (Text seg) [] :: MkTree (Text mseg) []
             :: MkTree (Text rseg) [] :: rest) :: others);
       context := ctx |} source
  = ClassifyingBlockQuote GHAlertsBlockQuoteClassifier mv.
Proof.
  intros Hd Hv Hm Hr.
  rewrite (first_text_decides source d seg _ others ctx "[" BlockQuoteType.None
             Hd Hv eq_refl).
  unfold bracketAlert. simpl. rewrite Hv. simpl. rewrite Hr. simpl.
  rewrite Hm. simpl. by destruct (ClassifyingBlockQuote _ mv).
Qed.

(** X8.  Where the quote opens with a paragraph that opens with a text,
    and the Legacy classifier gives that text a type other than [None],
    that type is the result, whatever follows the text in the paragraph and
    the paragraph in the quote. *)
Corollary classified_first_text_is_final (source : string) (d : NodeData)
    (seg : Segment) (rest others : list Tree) (ctx : list Frame) (v : string)
    (t1 : BlockQuoteType) :
  plainKind (dataKind d) ->
  Segment_Value seg source = Ret v ->
  ClassifyingBlockQuote LegacyBlockQuoteClassifier v = Ret t1 ->
  t1 <> BlockQuoteType.None ->
  ParseBlockQuoteType
    {| focus := MkTree d
         (MkTree (Other KindParagraph) (MkTree (Text seg) [] :: rest)
          :: others);
       context := ctx |} source
  = Ret t1.
Proof.
  intros Hd Hv Ht Hne. rewrite (first_text_decides source d seg rest others ctx
                                  v t1 Hd Hv Ht).
  by rewrite bool_decide_eq_false_2.
Qed.

(* --------------------------------------------------------------------- *)
(** ** The renderer *)
(* --------------------------------------------------------------------- *)


Section RendererProperties.
Context {W : Type} `{BufWriter W}.
Context (RenderAttributes : W -> list Attribute -> W).

Lemma renderAdmon_macro (r : Renderer) (writer : W) (source : string)
    (node : Node) (entering : bool) (m : BlockQuoteLevelMap)
    (quoteType : BlockQuoteType) :
  holds r node m ->
  ParseBlockQuoteType node source = Ret quoteType ->
  Level m node = 0%Z -> quoteType <> BlockQuoteType.None ->
  let s := if entering then macroPrefix quoteType else macroSuffix in
  renderAdmon RenderAttributes r writer source node entering
  = Ret ({| config := config r; LevelMap := Some m |},
         (Write writer s).1, afterWrite (Write writer s).2).
Proof.
  intros Hm Hq Hl Hne. unfold renderAdmon.
  assert (Hmap : match LevelMap r with
                 | Some m => mret m
                 | None => GenerateBlockQuoteLevel node
                 end = Ret m).
  { destruct Hm as [-> | [-> ->]]; done. }
  rewrite Hmap, Hq. simpl. rewrite Hl.
  rewrite (bool_decide_eq_true_2 (0%Z = 0%Z)) by done.
  rewrite (bool_decide_eq_true_2 (quoteType <> _)) by done.
  destruct entering; simpl.
  - by destruct (Write writer (macroPrefix quoteType)) as [w [e|]].
  - by destruct (Write writer macroSuffix) as [w [e|]].
Qed.

Lemma renderAdmon_plain (r : Renderer) (writer : W) (source : string)
    (node : Node) (entering : bool) (m : BlockQuoteLevelMap)
    (quoteType : BlockQuoteType) :
  holds r node m ->
  ParseBlockQuoteType node source = Ret quoteType ->
  Level m node <> 0%Z \/ quoteType = BlockQuoteType.None ->
  let r' := {| config := config r; LevelMap := Some m |} in
  renderAdmon RenderAttributes r writer source node entering
  = '(w, res) ← renderAdmonition RenderAttributes r' writer source node
                  entering;
    mret (r', w, res).
Proof.
  intros Hm Hq Hor. unfold renderAdmon.
  assert (Hmap : match LevelMap r with
                 | Some m => mret m
                 | None => GenerateBlockQuoteLevel node
                 end = Ret m).
  { destruct Hm as [-> | [-> ->]]; done. }
  rewrite Hmap, Hq. simpl.
  destruct Hor as [Hl | ->].
  - by rewrite (bool_decide_eq_false_2 (Level m node = 0%Z)) by done.
  - rewrite (bool_decide_eq_false_2 (BlockQuoteType.None <> _)) by auto.
    by rewrite !andb_false_r.
Qed.

Lemma renderAdmonition_returns (r : Renderer) (w : W) (source : string)
    (node : Node) (entering : bool) (attrs : option (list Attribute)) :
  treeData (focus node) = Admonition attrs ->
  exists w', renderAdmonition RenderAttributes r w source node entering
             = Ret (w', (WalkContinue, None)).
Proof.
  intros Hd. unfold renderAdmonition, asAdmonition. rewrite Hd. simpl.
  eauto.
Qed.



(** C8, amended.  A failure of the [Write] of a structured macro, opening
    or closing, ends the visit with [WalkStop] and the writer's error.
    The plain blockquote writes of [renderAdmonition] drop what the writer
    reports: on an Admonition node it returns [WalkContinue] and no error,
    whatever the writer. *)
Theorem write_failure_stops_macro_only (r : Renderer) (writer : W)
    (source : string) (node : Node) (entering : bool) :
  (forall m quoteType err,
     holds r node m -> ParseBlockQuoteType node source = Ret quoteType ->
     Level m node = 0%Z -> quoteType <> BlockQuoteType.None ->
     (Write writer (if entering then macroPrefix quoteType
                    else macroSuffix)).2 = Some err ->
     exists r' writer',
       renderAdmon RenderAttributes r writer source node entering
       = Ret (r', writer', (WalkStop, Some err))) /\
  (forall attrs,
     treeData (focus node) = Admonition attrs ->
     exists writer',
       renderAdmonition RenderAttributes r writer source node entering
       = Ret (writer', (WalkContinue, None))).
Proof.
  split.
  - intros m quoteType err Hm Hq Hl Hne Herr.
    rewrite (renderAdmon_macro r writer source node entering m quoteType)
      by done.
    cbv zeta. rewrite Herr. simpl. eauto.
  - intros attrs. apply renderAdmonition_returns.
Qed.

(** C9.  [renderAdmonition] on a node that is not of the Admonition type
    panics at its type assertion, with no result and no error value; on
    an Admonition node the assertion holds and the call returns. *)
Theorem renderAdmonition_type_assertion (r : Renderer) (w : W)
    (source : string) (node : Node) (entering : bool) :
  ((forall attrs, treeData (focus node) <> Admonition attrs) ->
   renderAdmonition RenderAttributes r w source node entering
   = Panic TypeAssertion) /\
  (forall attrs, treeData (focus node) = Admonition attrs ->
     returns (renderAdmonition RenderAttributes r w source node entering)).
Proof.
  split.
  - intros Hd. unfold renderAdmonition, asAdmonition.
    destruct (treeData (focus node)) as [| |attrs|]; try done.
    by destruct (Hd attrs).
  - intros attrs Hd.
    destruct (renderAdmonition_returns r w source node entering attrs Hd)
      as [w' Hw].
    by exists (w', (WalkContinue, None)).
Qed.

(** C10.  The entries of the level map are entries of nodes of the
    blockquote kind.  A node of the document of any other kind, a node of
    the Admonition type among them, has no entry, [Level] answers 0 for
    it, and [renderAdmon], with the map of the document or none yet,
    treats it as a top-level quote: with a type other than [None] the
    entering visit writes the opening of the structured macro. *)
Theorem levels_only_for_blockquotes (someNode : Node) :
  exists m,
    GenerateBlockQuoteLevel someNode = Ret m /\
    (forall k d, m !! k = Some d ->
       exists n, sameDocument n someNode /\ nodeId n = k /\
                 Kind n = KindBlockquote) /\
    (forall n, sameDocument n someNode -> Kind n <> KindBlockquote ->
       m !! nodeId n = None /\ Level m n = 0%Z) /\
    (forall n attrs, sameDocument n someNode ->
       treeData (focus n) = Admonition attrs ->
       Kind n = KindAdmonition /\ m !! nodeId n = None /\ Level m n = 0%Z) /\
    (forall r writer source quoteType,
       holds r someNode m -> Kind someNode <> KindBlockquote ->
       ParseBlockQuoteType someNode source = Ret quoteType ->
       quoteType <> BlockQuoteType.None ->
       renderAdmon RenderAttributes r writer source someNode true
       = Ret ({| config := config r; LevelMap := Some m |},
              (Write writer (macroPrefix quoteType)).1,
              afterWrite (Write writer (macroPrefix quoteType)).2)).
Proof.
  destruct (GenerateBlockQuoteLevel_levels someNode) as (m & Hm & Hl).
  assert (Hout : forall n, sameDocument n someNode ->
            Kind n <> KindBlockquote ->
            m !! nodeId n = None /\ Level m n = 0%Z).
  { intros n Hn Hk.
    pose proof (no_level_outside_blockquotes someNode n m Hm Hn Hk) as Hno.
    split; [done |]. unfold Level. by rewrite Hno. }
  exists m. split; [done |]. split; [| split; [| split]].
  - intros k d Hd. destruct Hl as (_ & _ & Hc).
    apply Hc in Hd as [Hd | (n & Hn & Hq & Hk)];
      [by rewrite lookup_empty in Hd |].
    exists n. by rewrite sameDocument_subnodes, <- isBlockquote_Kind.
  - done.
  - intros n attrs Hn Hd.
    assert (Hk : Kind n = KindAdmonition) by (unfold Kind; by rewrite Hd).
    split; [done |]. apply Hout; [done |]. by rewrite Hk.
  - intros r writer source quoteType Hr Hk Hq Hne.
    apply (renderAdmon_macro r writer source someNode true m quoteType);
      [done | done | | done].
    by apply Hout.
Qed.
End RendererProperties.

(** C8 as stated fails: the writer reports a failure of the write of the
    plain opening tag, and both [renderAdmonition] and [renderAdmon] (at a
    quote of type [None]) return [WalkContinue] and no error. *)
Lemma plain_quote_ignores_write_failure :
  (WriteString brokenSink ("<blockquote>" +:+ newline)).2 = Some "write failed"
  /\
  renderAdmonition sinkRenderAttributes freshRenderer brokenSink noteSource
    plainAdmonition true
  = Ret (brokenSink, (WalkContinue, None)) /\
  exists r,
    renderAdmon sinkRenderAttributes freshRenderer brokenSink noteSource
      plainAdmonition true
    = Ret (r, brokenSink, (WalkContinue, None)).
Proof.
  split; [reflexivity |]. split; [reflexivity |].
  eexists. vm_compute. reflexivity.
Qed.



(** C8, run with a writer that fails every write. *)
Lemma write_failure_stops_macro_only_witness :
  (exists r' writer',
     renderAdmon sinkRenderAttributes freshRenderer brokenSink noteSource
       noteAdmonition true
     = Ret (r', writer', (WalkStop, Some "write failed"))) /\
  (exists writer',
     renderAdmonition sinkRenderAttributes freshRenderer brokenSink noteSource
       noteAdmonition true
     = Ret (writer', (WalkContinue, None))).
Proof.
  destruct (write_failure_stops_macro_only sinkRenderAttributes freshRenderer
              brokenSink noteSource noteAdmonition true) as [Hmacro Hplain].
  split.
  - apply (Hmacro ∅ BlockQuoteType.Note).
    + right. split; [reflexivity | vm_compute; reflexivity].
    + vm_compute. reflexivity.
    + reflexivity.
    + discriminate.
    + reflexivity.
  - apply (Hplain None). reflexivity.
Defined.

(** C9, run on a blockquote of goldmark and on an admonition. *)
Lemma renderAdmonition_type_assertion_witness :
  renderAdmonition sinkRenderAttributes freshRenderer emptySink noteSource
    noteQuote true
  = Panic TypeAssertion /\
  returns (renderAdmonition sinkRenderAttributes freshRenderer emptySink
             noteSource noteAdmonition true).
Proof.
  split.
  - apply (renderAdmonition_type_assertion sinkRenderAttributes freshRenderer
             emptySink noteSource noteQuote true).
    intros attrs. discriminate.
  - apply (renderAdmonition_type_assertion sinkRenderAttributes freshRenderer
             emptySink noteSource noteAdmonition true) with (attrs := None).
    reflexivity.
Defined.

(** C10, run on the admonition inside the outer quote of the nested
    document: one blockquote encloses it, and it has no level. *)
Lemma levels_only_for_blockquotes_witness :
  exists m,
    GenerateBlockQuoteLevel nestedAdmonition = Ret m /\
    Kind nestedAdmonition = KindAdmonition /\
    enclosing nestedAdmonition = 1 /\
    m !! nodeId nestedAdmonition = None /\
    Level m nestedAdmonition = 0%Z.
Proof.
  destruct (levels_only_for_blockquotes sinkRenderAttributes nestedAdmonition)
    as (m & Hm & _ & _ & Hadm & _).
  exists m. split; [exact Hm |].
  destruct (Hadm nestedAdmonition None eq_refl eq_refl)
    as (Hk & Hno & Hl).
  split; [exact Hk |]. split; [reflexivity |].
  split; [exact Hno | exact Hl].
Defined.

(* --------------------------------------------------------------------- *)
(** ** More on the classifiers *)
(* --------------------------------------------------------------------- *)

(** ** Letter case *)

Lemma toLower_idemp (c : ascii) : toLower (toLower c) = toLower c.
Proof. by destruct c as [[] [] [] [] [] [] [] []]. Qed.

Lemma runeEq_fold_lower (c x : ascii) :
  runeEq true c (toLower x) = runeEq true c x.
Proof. unfold runeEq. by rewrite toLower_idemp. Qed.

Lemma beginsb_lower (w s : string) : beginsb w (lower s) = beginsb w s.
Proof.
  unfold beginsb. revert s.
  induction w as [|c w IH]; intros s; [done |].
  destruct s as [|x s]; [done |]. cbn [lower stripLiteral].
  rewrite runeEq_fold_lower. destruct (runeEq true c x); [apply IH | done].
Qed.

Lemma search_fold_lower (w : string) (s : string) :
  forall i, searchFrom (foldWord w) i (lower s) = searchFrom (foldWord w) i s.
Proof.
  induction s as [|x s IH]; intros i; [done |].
  simpl lower. simpl searchFrom. unfold foldWord in *.
  rewrite !matchesAt_literal. rewrite <- IH.
  f_equal. change (String (toLower x) (lower s)) with (lower (String x s)).
  apply beginsb_lower.
Qed.

Lemma legacy_lower (s : string) :
  ClassifyingBlockQuote LegacyBlockQuoteClassifier (lower s)
  = ClassifyingBlockQuote LegacyBlockQuoteClassifier s.
Proof.
  rewrite !legacy_classify. unfold firstMatch.
  by rewrite !search_fold_lower.
Qed.

Lemma alerts_lower (s : string) :
  ClassifyingBlockQuote GHAlertsBlockQuoteClassifier (lower s)
  = ClassifyingBlockQuote GHAlertsBlockQuoteClassifier s.
Proof.
  rewrite !alerts_classify. by rewrite !beginsb_lower.
Qed.

(** X1.  Both classifiers ignore the case of the letters: two strings that
    differ in case only get the same type. *)
Theorem classification_ignores_case (s1 s2 : string) :
  lower s1 = lower s2 ->
  ClassifyingBlockQuote LegacyBlockQuoteClassifier s1
  = ClassifyingBlockQuote LegacyBlockQuoteClassifier s2 /\
  ClassifyingBlockQuote GHAlertsBlockQuoteClassifier s1
  = ClassifyingBlockQuote GHAlertsBlockQuoteClassifier s2.
Proof.
  intros Hl. split.
  - by rewrite <- (legacy_lower s1), Hl, legacy_lower.
  - by rewrite <- (alerts_lower s1), Hl, alerts_lower.
Qed.

(** X1, run on a Legacy tip and an Alert caution in two spellings. *)
Lemma classification_ignores_case_witness :
  ClassifyingBlockQuote LegacyBlockQuoteClassifier "A Tip: Use X"
  = ClassifyingBlockQuote LegacyBlockQuoteClassifier "a TIP: use x" /\
  ClassifyingBlockQuote GHAlertsBlockQuoteClassifier "!Caution"
  = ClassifyingBlockQuote GHAlertsBlockQuoteClassifier "!CAUTION".
Proof.
  split.
  - apply (classification_ignores_case "A Tip: Use X" "a TIP: use x").
    reflexivity.
  - apply (classification_ignores_case "!Caution" "!CAUTION"). reflexivity.
Defined.

(** X2.  The Legacy classifier by the words a string contains, whatever
    their case: [Info] when it contains info, else [Note] when it contains
    note, else [Warn] for warn, else [Tip] for tip, and [None] exactly when
    it contains none of the four. *)
Theorem legacy_classifier_by_words (s : string) :
  (ClassifyingBlockQuote LegacyBlockQuoteClassifier s = Ret BlockQuoteType.Info
   <-> ContainsFold "info" s) /\
  (ClassifyingBlockQuote LegacyBlockQuoteClassifier s = Ret BlockQuoteType.Note
   <-> ~ ContainsFold "info" s /\ ContainsFold "note" s) /\
  (ClassifyingBlockQuote LegacyBlockQuoteClassifier s = Ret BlockQuoteType.Warn
   <-> ~ ContainsFold "info" s /\ ~ ContainsFold "note" s /\
       ContainsFold "warn" s) /\
  (ClassifyingBlockQuote LegacyBlockQuoteClassifier s = Ret BlockQuoteType.Tip
   <-> ~ ContainsFold "info" s /\ ~ ContainsFold "note" s /\
       ~ ContainsFold "warn" s /\ ContainsFold "tip" s) /\
  (ClassifyingBlockQuote LegacyBlockQuoteClassifier s = Ret BlockQuoteType.None
   <-> ~ ContainsFold "info" s /\ ~ ContainsFold "note" s /\
       ~ ContainsFold "warn" s /\ ~ ContainsFold "tip" s).
Proof.
  rewrite legacy_classify. unfold firstMatch.
  pose proof (search_literal_spec "info" 0 s) as Hi.
  pose proof (search_literal_spec "note" 0 s) as Hn.
  pose proof (search_literal_spec "warn" 0 s) as Hw.
  pose proof (search_literal_spec "tip" 0 s) as Ht.
  destruct (searchFrom (foldWord "info") 0 s),
           (searchFrom (foldWord "note") 0 s),
           (searchFrom (foldWord "warn") 0 s),
           (searchFrom (foldWord "tip") 0 s);
    intuition (discriminate || congruence).
Qed.

(** X3.  A classifier whose map lacks a pattern: the call panics exactly
    when the [switch] gets to a missing pattern, that is when a key has no
    pattern and the patterns of the keys before it are there and do not
    match; the panic is the nil dereference of [MatchString]. *)
Theorem classifier_missing_pattern (c : BlockQuoteClassifier) (s : string) :
  (forall p, ClassifyingBlockQuote c s = Panic p -> p = NilDereference) /\
  (ClassifyingBlockQuote c s = Panic NilDereference <->
   exists i key,
     switchKeys !! i = Some key /\ pattern c key = None /\
     forall j k, j < i -> switchKeys !! j = Some k ->
       exists re, pattern c k = Some re /\ searchFrom re 0 s = false).
Proof.
  unfold ClassifyingBlockQuote, MatchString.
  destruct (pattern c "info") as [ri|] eqn:Hi; simpl.
  2:{ split; [by intros p [= <-] |]. split; [intros _ | done].
      exists 0, "info". split; [done |]. split; [done |]. intros j k Hj. lia. }
  destruct (searchFrom ri 0 s) eqn:Si; simpl.
  { split; [done |]. split; [done |].
    intros (i & key & Hk & Hnone & Hbefore).
    destruct i as [|i]; [simpl in Hk; simplify_eq |].
    destruct (Hbefore 0 "info" ltac:(lia) eq_refl) as (re & Hre & Hs).
    rewrite Hi in Hre. injection Hre as <-. congruence. }
  destruct (pattern c "note") as [rn|] eqn:Hn; simpl.
  2:{ split; [by intros p [= <-] |]. split; [intros _ | done].
      exists 1, "note". split; [done |]. split; [done |].
      intros j k Hj Hk. destruct j as [|j]; [| lia].
      simpl in Hk. simplify_eq. eauto. }
  destruct (searchFrom rn 0 s) eqn:Sn; simpl.
  { split; [done |]. split; [done |].
    intros (i & key & Hk & Hnone & Hbefore).
    destruct i as [|[|i]]; [simpl in Hk; simplify_eq .. |].
    destruct (Hbefore 1 "note" ltac:(lia) eq_refl) as (re & Hre & Hs).
    rewrite Hn in Hre. injection Hre as <-. congruence. }
  destruct (pattern c "warn") as [rw|] eqn:Hw; simpl.
  2:{ split; [by intros p [= <-] |]. split; [intros _ | done].
      exists 2, "warn". split; [done |]. split; [done |].
      intros j k Hj Hk. destruct j as [|[|j]]; [| | lia];
        simpl in Hk; simplify_eq; eauto. }
  destruct (searchFrom rw 0 s) eqn:Sw; simpl.
  { split; [done |]. split; [done |].
    intros (i & key & Hk & Hnone & Hbefore).
    destruct i as [|[|[|i]]]; [simpl in Hk; simplify_eq .. |].
    destruct (Hbefore 2 "warn" ltac:(lia) eq_refl) as (re & Hre & Hs).
    rewrite Hw in Hre. injection Hre as <-. congruence. }
  destruct (pattern c "tip") as [rt|] eqn:Ht; simpl.
  2:{ split; [by intros p [= <-] |]. split; [intros _ | done].
      exists 3, "tip". split; [done |]. split; [done |].
      intros j k Hj Hk. destruct j as [|[|[|j]]]; [| | | lia];
        simpl in Hk; simplify_eq; eauto. }
  split; [by destruct (searchFrom rt 0 s) |].
  split; [by destruct (searchFrom rt 0 s) |].
  intros (i & key & Hk & Hnone & Hbefore).
  destruct i as [|[|[|[|i]]]]; simpl in Hk; simplify_eq.
Qed.

Lemma begins_within (w : string) :
  forall n s, String.length w <= n ->
    beginsb w (substring 0 n s) = beginsb w s.
Proof.
  unfold beginsb.
  induction w as [|c w IH]; intros n s Hn; [done |].
  simpl in Hn. destruct n as [|n]; [lia |].
  destruct s as [|x s]; [done |].
  cbn [substring stripLiteral].
  destruct (runeEq true c x); [apply IH; lia | done].
Qed.

(** X4.  The Alert classifier reads the first ten bytes of the string, the
    length of the longest marker, and nothing after them. *)
Theorem alert_classifier_reads_ten_bytes (s : string) :
  ClassifyingBlockQuote GHAlertsBlockQuoteClassifier s
  = ClassifyingBlockQuote GHAlertsBlockQuoteClassifier (substring 0 10 s).
Proof.
  rewrite !alerts_classify.
  by rewrite !begins_within by (simpl; lia).
Qed.

(* --------------------------------------------------------------------- *)
(** ** More on the level map *)
(* --------------------------------------------------------------------- *)

Lemma enclosing_Parent (n p : Node) :
  Parent n = Some p ->
  enclosing n = (if isBlockquote p then 1 else 0) + enclosing p.
Proof.
  destruct n as [t [|f c]]; [done |]. intros [= <-]. apply enclosing_child.
Qed.

Lemma sameDocument_Parent (n p : Node) :
  Parent n = Some p -> sameDocument n p.
Proof. intros Hp. unfold sameDocument. by rewrite (rootOf_Parent n), Hp. Qed.

Lemma generated_level (someNode n : Node) (m : BlockQuoteLevelMap) :
  GenerateBlockQuoteLevel someNode = Ret m ->
  sameDocument n someNode -> Kind n = KindBlockquote ->
  Level m n = depthInt n.
Proof.
  intros Hm Hn Hk.
  destruct (GenerateBlockQuoteLevel_levels someNode) as (m' & Hm' & Hl & _).
  rewrite Hm in Hm'. injection Hm' as <-.
  apply Level_lookup, Hl; [by apply sameDocument_subnodes |].
  by apply isBlockquote_Kind.
Qed.

(** X5.  Two blockquotes with the same parent have the same level, whatever
    lies in the quotes between them: the walk takes back on leaving a quote
    what it added on entering it.  Under a blockquote their level is the
    parent's plus one. *)
Theorem sibling_quotes_share_level (someNode n1 n2 p : Node)
    (m : BlockQuoteLevelMap) :
  GenerateBlockQuoteLevel someNode = Ret m ->
  sameDocument n1 someNode ->
  Parent n1 = Some p -> Parent n2 = Some p ->
  Kind n1 = KindBlockquote -> Kind n2 = KindBlockquote ->
  Level m n1 = Level m n2 /\
  (Kind p = KindBlockquote -> Level m n1 = intAdd (Level m p) 1).
Proof.
  intros Hm Hd H1 H2 K1 K2.
  assert (Hp : sameDocument p someNode).
  { unfold sameDocument in *. by rewrite <- (sameDocument_Parent n1 p H1). }
  assert (Hd2 : sameDocument n2 someNode).
  { unfold sameDocument in *. by rewrite (sameDocument_Parent n2 p H2). }
  rewrite (generated_level someNode n1 m), (generated_level someNode n2 m)
    by done.
  unfold depthInt.
  rewrite (enclosing_Parent n1 p H1), (enclosing_Parent n2 p H2).
  split; [done |]. intros Kp.
  rewrite (generated_level someNode p m) by done.
  unfold depthInt. rewrite intAdd_wrapInt.
  apply isBlockquote_Kind in Kp. rewrite Kp. f_equal. lia.
Qed.

(** X5, run on the two inner quotes of the document of siblings. *)
Lemma sibling_quotes_share_level_witness :
  exists m,
    GenerateBlockQuoteLevel siblingRoot = Ret m /\
    Level m firstSibling = Level m lastSibling /\
    Level m firstSibling = intAdd (Level m siblingsParent) 1.
Proof.
  destruct (GenerateBlockQuoteLevel siblingRoot) as [m|] eqn:Hm;
    [| vm_compute in Hm; discriminate].
  exists m. split; [reflexivity |].
  destruct (sibling_quotes_share_level siblingRoot firstSibling lastSibling
              siblingsParent m Hm eq_refl eq_refl eq_refl eq_refl eq_refl)
    as [Heq Hup].
  split; [exact Heq | exact (Hup eq_refl)].
Defined.

(* --------------------------------------------------------------------- *)
(** ** More on ParseBlockQuoteType *)
(* --------------------------------------------------------------------- *)

(** X7, run on the three fragments of a tip at the head of a paragraph. *)
Lemma bracket_alert_in_paragraph_witness :
  ParseBlockQuoteType tipParagraphQuote tipSource
  = ClassifyingBlockQuote GHAlertsBlockQuoteClassifier "!TIP".
Proof.
  apply (bracket_alert_in_paragraph tipSource (Other KindBlockquote)
           (seg 0 1) (seg 1 5) (seg 5 6) [] [] (context tipParagraphQuote)
           "!TIP").
  - unfold plainKind. cbn [dataKind]. repeat split; discriminate.
  - vm_compute. reflexivity.
  - vm_compute. reflexivity.
  - vm_compute. reflexivity.
Defined.

(** X8, run on a quote whose first text is a tip and whose emphasis and
    second paragraph say note. *)
Lemma classified_first_text_is_final_witness :
  ParseBlockQuoteType emphasisNoteQuote emphasisNoteSource
  = Ret BlockQuoteType.Tip.
Proof.
  apply (classified_first_text_is_final emphasisNoteSource
           (Other KindBlockquote) (seg 2 6)
           [block KindEmphasis [text 7 11]]
           [block KindParagraph [text 7 11]]
           (context emphasisNoteQuote) "tip " BlockQuoteType.Tip).
  - unfold plainKind. cbn [dataKind]. repeat split; discriminate.
  - vm_compute. reflexivity.
  - vm_compute. reflexivity.
  - discriminate.
Defined.

(** X6, run on the bracketed alert in a heading. *)
Lemma ParseBlockQuoteType_returns_witness :
  returns (ParseBlockQuoteType cautionHeadingQuote cautionSource).
Proof.
  apply (ParseBlockQuoteType_returns cautionSource cautionHeadingQuote).
  vm_compute. reflexivity.
Defined.

(** ** The type of a node and the place of the node *)

Lemma bracketAlert_context (source : string) (t : Tree) (f : Frame)
    (c c' : list Frame) (n : Segment) (ty : BlockQuoteType) :
  bracketAlert source {| focus := t; context := f :: c |} n ty
  = bracketAlert source {| focus := t; context := f :: c' |} n ty.
Proof.
  unfold bracketAlert, NextSibling. simpl.
  destruct (after f) as [|mid [|right rest]]; reflexivity.
Qed.

Lemma parseWalker_context (source : string) (t : Tree) (fs c c' : list Frame)
    (e : bool) (s : BlockQuoteType * Z) :
  fs <> [] \/ dataKind (treeData t) <> KindText ->
  parseWalker source {| focus := t; context := fs ++ c |} e s
  = parseWalker source {| focus := t; context := fs ++ c' |} e s.
Proof.
  intros Hfs. destruct s as [ty cnt]. unfold parseWalker. cbv zeta.
  unfold Kind, asText, asHTMLBlock. simpl focus.
  destruct (bool_decide_reflect (dataKind (treeData t) = KindText))
    as [Hk|Hk]; [| reflexivity].
  destruct fs as [|f fs]; [by destruct Hfs |].
  destruct (_ && e); [| reflexivity].
  destruct (treeData t) as [seg|lines|attrs|k]; try reflexivity.
  cbn [mbind go_bind mret go_ret].
  destruct (Segment_Value seg source) as [v|p]; [| reflexivity].
  cbn [mbind go_bind mret go_ret].
  destruct (ClassifyingBlockQuote LegacyBlockQuoteClassifier v) as [t1|p];
    [| reflexivity].
  cbn [mbind go_bind mret go_ret app].
  by rewrite (bracketAlert_context source _ f (fs ++ c) (fs ++ c')).
Qed.

Lemma walk_context (source : string) (t : Tree) :
  forall fs c c' s,
    fs <> [] \/ dataKind (treeData t) <> KindText ->
    walkHelper (parseWalker source) t (fs ++ c) s
    = walkHelper (parseWalker source) t (fs ++ c') s.
Proof.
  induction t as [d cs IH] using Tree_ind_nested.
  intros fs c c' s Hfs. rewrite !walkHelper_unfold. cbv zeta.
  assert (Hch : forall left s,
            walkChildren (parseWalker source) d (fs ++ c) left cs s
            = walkChildren (parseWalker source) d (fs ++ c') left cs s).
  { clear Hfs s. induction IH as [|ch rest Hc _ IHrest]; intros left s;
      [reflexivity |].
    rewrite !walkChildren_cons.
    assert (Hne : {| parentData := d; before := left; after := rest |} :: fs
                  <> []) by done.
    pose proof (Hc _ c c' s (or_introl Hne)) as Heq.
    cbn [app] in Heq. rewrite Heq. clear Heq.
    destruct (walkHelper _ ch _ s) as [[s1 st1]|p]; cbn [mbind go_bind];
      [| reflexivity].
    destruct (bool_decide (st1 = WalkStop)); [reflexivity |].
    apply IHrest. }
  rewrite (parseWalker_context source (MkTree d cs) fs c c' true s Hfs).
  destruct (parseWalker source _ true s) as [[s1 st1]|p];
    cbn [mbind go_bind]; [| reflexivity].
  destruct (bool_decide (st1 = WalkStop)); [reflexivity |].
  rewrite Hch.
  destruct (if bool_decide (st1 = WalkSkipChildren) then _ else _)
    as [[s2 st2]|p]; cbn [mbind go_bind]; [| reflexivity].
  destruct (bool_decide (st2 = WalkStop)); [reflexivity |].
  by rewrite (parseWalker_context source (MkTree d cs) fs c c' false s2 Hfs).
Qed.

(** X9.  The type of a node that is not itself a text node depends on the
    subtree below the node and on the source only: the same subtree gets the
    same type wherever it stands, in a document or detached. *)
Theorem type_independent_of_context (source : string) (t : Tree)
    (c c' : list Frame) :
  dataKind (treeData t) <> KindText ->
  ParseBlockQuoteType {| focus := t; context := c |} source
  = ParseBlockQuoteType {| focus := t; context := c' |} source.
Proof.
  intros Hk. unfold ParseBlockQuoteType, parseWalk, Walk. cbn [focus context].
  by rewrite (walk_context source t [] c c' _ (or_intror Hk)).
Qed.

(** X9, run on the quote of one note, in its document and detached. *)
Lemma type_independent_of_context_witness :
  ParseBlockQuoteType noteQuote noteSource
  = ParseBlockQuoteType {| focus := focus noteQuote; context := [] |}
      noteSource.
Proof.
  apply (type_independent_of_context noteSource (focus noteQuote)
           (context noteQuote) []).
  vm_compute. discriminate.
Defined.

Lemma walk_within {S : Type} (walker : Walker S) (OK : Node -> Prop)
    (Inv : S -> Prop) :
  hereditary OK ->
  (forall n e s, OK n -> Inv s ->
     exists s' st, walker n e s = Ret (s', st) /\ Inv s') ->
  forall t c s, OK {| focus := t; context := c |} -> Inv s ->
    exists s' st, walkHelper walker t c s = Ret (s', st) /\ Inv s'.
Proof.
  intros Hher Hw. induction t as [d cs IH] using Tree_ind_nested.
  intros c s Hok Hs. set (n0 := {| focus := MkTree d cs; context := c |}) in *.
  assert (Hloop : forall rest, Forall (fun t => forall c s,
              OK {| focus := t; context := c |} -> Inv s ->
              exists s' st, walkHelper walker t c s = Ret (s', st) /\ Inv s')
              rest ->
            forall left s, rev_append left rest = cs -> Inv s ->
              exists s' st, walkChildren walker d c left rest s = Ret (s', st)
                            /\ Inv s').
  { clear IH. induction 1 as [|ch rest Hch _ IHrest]; intros left s1 Hcs Hs1.
    - by exists s1, WalkContinue.
    - rewrite walkChildren_cons.
      destruct (Hch ({| parentData := d; before := left; after := rest |}
                     :: c) s1) as (s2 & st2 & -> & Hs2); [| done |].
      { apply Hher. by rewrite Hcs. }
      cbn [mbind go_bind]. case_bool_decide; [by exists s2, WalkStop |].
      by apply IHrest. }
  rewrite walkHelper_unfold. fold n0. cbv zeta.
  destruct (Hw n0 true s Hok Hs) as (s1 & st1 & -> & Hs1).
  cbn [mbind go_bind]. case_bool_decide; [by exists s1, WalkStop |].
  assert (Hmid : exists s2 st2,
            (if bool_decide (st1 = WalkSkipChildren)
             then mret (s1, WalkContinue)
             else walkChildren walker d c [] cs s1) = Ret (s2, st2) /\ Inv s2).
  { case_bool_decide; [by exists s1, WalkContinue | by apply Hloop]. }
  destruct Hmid as (s2 & st2 & -> & Hs2). cbn [mbind go_bind].
  case_bool_decide; [by exists s2, WalkStop |].
  destruct (Hw n0 false s2 Hok Hs2) as (s3 & st3 & -> & Hs3).
  cbn [mbind go_bind]. case_bool_decide; by eexists _, _.
Qed.

Lemma textFree_hereditary : hereditary (fun n => textFree (focus n) = true).
Proof.
  intros d left ch rest c. cbn [focus textFree].
  rewrite rev_append_rev, !andb_true_iff, forallb_Forall_true.
  rewrite Forall_app, Forall_cons. by intros (_ & _ & Hc & _).
Qed.

Lemma parseWalker_skips (source : string) (n : Node) (e : bool)
    (t : BlockQuoteType) (c : Z) :
  Kind n <> KindText -> Kind n <> KindHTMLBlock ->
  exists c' st, parseWalker source n e (t, c) = Ret ((t, c'), st).
Proof.
  intros Ht Hh. unfold parseWalker. cbv zeta.
  rewrite (bool_decide_eq_false_2 (Kind n = KindText)) by done.
  rewrite (bool_decide_eq_false_2 (Kind n = KindHTMLBlock)) by done.
  destruct (_ && e); [by eexists _, _ |].
  destruct (_ && e); by eexists _, _.
Qed.

(** X10.  A quote with no text node and no raw HTML block at or below it,
    an empty quote among them, has the type [None]; nothing of the source
    is read, so the call returns whatever the source is. *)
Theorem quote_without_text_is_None (source : string) (node : Node) :
  textFree (focus node) = true ->
  ParseBlockQuoteType node source = Ret BlockQuoteType.None.
Proof.
  intros Hfree. unfold ParseBlockQuoteType, parseWalk, Walk.
  destruct (walk_within (parseWalker source)
              (fun n => textFree (focus n) = true)
              (fun s => s.1 = BlockQuoteType.None)
              textFree_hereditary) with
    (t := focus node) (c := context node) (s := (BlockQuoteType.None, 0%Z))
    as ([t c] & st & -> & Ht); [| done | done |].
  - intros n e [t c] Hn Ht. cbn [fst] in Ht. subst t.
    destruct (focus n) as [d cs] eqn:Hf. cbn [textFree] in Hn.
    apply andb_true_iff in Hn as [[Hk1 Hk2]%andb_true_iff _].
    apply bool_decide_eq_true in Hk1, Hk2.
    destruct (parseWalker_skips source n e BlockQuoteType.None c)
      as (c' & st & ->); [by unfold Kind; rewrite Hf .. |].
    by exists (BlockQuoteType.None, c'), st.
  - cbn [fst] in Ht. by subst t.
Qed.

(** X10, run on the quote that holds an image and an empty paragraph. *)
Lemma quote_without_text_is_None_witness :
  ParseBlockQuoteType imageQuote noteSource = Ret BlockQuoteType.None.
Proof.
  apply (quote_without_text_is_None noteSource imageQuote). reflexivity.
Defined.

(** ** The quote that opens with a raw HTML block *)

Lemma classifyLines_quiet (source : string) (lines : list Segment)
    (t0 : BlockQuoteType) :
  Forall (fun x => exists u, Segment_Value x source = Ret u /\
            ClassifyingBlockQuote LegacyBlockQuoteClassifier u
            = Ret BlockQuoteType.None) lines ->
  classifyLines lines source t0
  = Ret (match lines with [] => t0 | _ :: _ => BlockQuoteType.None end).
Proof.
  intros Hq. revert t0.
  induction Hq as [|x rest (u & Hu & Hn) _ IH]; intros t0; [done |].
  cbn [classifyLines]. rewrite Hu. cbn [mbind go_bind]. rewrite Hn.
  cbn [mbind go_bind].
  rewrite (bool_decide_eq_false_2 (BlockQuoteType.None <> _)) by auto.
  rewrite IH. by destruct rest.
Qed.

(** X11.  The loop over the lines of a raw HTML block answers the type of
    the first line that classifies and reads no line after it; when no line
    classifies it answers [None], and the type it was entered with only
    when there is no line at all. *)
Theorem classifyLines_first_hit (source : string) (t0 : BlockQuoteType) :
  (forall pre line post v k,
     Forall (fun x => exists u, Segment_Value x source = Ret u /\
               ClassifyingBlockQuote LegacyBlockQuoteClassifier u
               = Ret BlockQuoteType.None) pre ->
     Segment_Value line source = Ret v ->
     ClassifyingBlockQuote LegacyBlockQuoteClassifier v = Ret k ->
     k <> BlockQuoteType.None ->
     classifyLines (pre ++ line :: post) source t0 = Ret k) /\
  (forall lines,
     Forall (fun x => exists u, Segment_Value x source = Ret u /\
               ClassifyingBlockQuote LegacyBlockQuoteClassifier u
               = Ret BlockQuoteType.None) lines ->
     classifyLines lines source t0
     = Ret (match lines with [] => t0 | _ :: _ => BlockQuoteType.None end)).
Proof.
  split; [| intros lines; apply classifyLines_quiet].
  intros pre line post v k Hq Hv Hk Hne. revert t0.
  induction Hq as [|x rest (u & Hu & Hn) _ IH]; intros t0.
  - cbn [app classifyLines]. rewrite Hv. cbn [mbind go_bind]. rewrite Hk.
    cbn [mbind go_bind]. by rewrite bool_decide_eq_true_2.
  - cbn [app classifyLines]. rewrite Hu. cbn [mbind go_bind]. rewrite Hn.
    cbn [mbind go_bind].
    rewrite (bool_decide_eq_false_2 (BlockQuoteType.None <> _)) by auto.
    apply IH.
Qed.

(** X11, run on the lines of the raw HTML block: the line after the hit lies
    outside the source and is not read. *)
Lemma classifyLines_first_hit_witness :
  classifyLines [seg 0 5; seg 5 9; seg 9 15; seg 0 99] warnSource
    BlockQuoteType.Tip
  = Ret BlockQuoteType.Warn /\
  classifyLines [seg 0 5; seg 9 15] warnSource BlockQuoteType.Tip
  = Ret BlockQuoteType.None.
Proof.
  destruct (classifyLines_first_hit warnSource BlockQuoteType.Tip)
    as [Hhit Hquiet].
  split.
  - apply (Hhit [seg 0 5] (seg 5 9) [seg 9 15; seg 0 99] "WARN"
             BlockQuoteType.Warn).
    + constructor; [| constructor].
      exists "<div>". split; vm_compute; reflexivity.
    + vm_compute. reflexivity.
    + vm_compute. reflexivity.
    + discriminate.
  - apply (Hquiet [seg 0 5; seg 9 15]).
    constructor.
    { exists "<div>". split; vm_compute; reflexivity. }
    constructor; [| constructor].
    exists "</div>". split; vm_compute; reflexivity.
Defined.

Lemma walkChildren_nil {S : Type} (walker : Walker S) (d : NodeData)
    (c : list Frame) (left : list Tree) (s : S) :
  walkChildren walker d c left [] s = Ret (s, WalkContinue).
Proof. reflexivity. Qed.

Lemma parseWalker_second_paragraph (source : string) (n : Node)
    (t : BlockQuoteType) :
  Kind n = KindParagraph ->
  parseWalker source n true (t, 1%Z) = Ret ((t, 2%Z), WalkStop).
Proof.
  intros Hk. unfold parseWalker. cbv zeta.
  by rewrite (bool_decide_eq_true_2 (Kind n = KindParagraph)) by done.
Qed.

Lemma parseWalker_block (source : string) (n : Node) (lines : list Segment)
    (t : BlockQuoteType) :
  treeData (focus n) = HTMLBlock lines ->
  parseWalker source n true (t, 0%Z)
  = t' ← classifyLines lines source t; Ret ((t', 1%Z), WalkContinue).
Proof.
  intros Hd. unfold parseWalker, asHTMLBlock, Kind. rewrite Hd. cbv zeta.
  cbn [dataKind]. 
  rewrite (bool_decide_eq_false_2 (KindHTMLBlock = KindParagraph)) by done.
  rewrite (bool_decide_eq_false_2 (KindHTMLBlock = KindText)) by done.
  rewrite (bool_decide_eq_true_2 (KindHTMLBlock = KindHTMLBlock)) by done.
  rewrite (bool_decide_eq_true_2 (0 < 2)%Z) by lia.
  cbn [andb mbind go_bind mret go_ret].
  by destruct (classifyLines lines source t).
Qed.

(** X12.  Where the quote opens with a raw HTML block and a paragraph comes
    next, or nothing, the lines of the block alone decide: the type is what
    the loop over the lines answers, and it panics only if that loop
    does. *)
Theorem first_html_block_decides (source : string) (d : NodeData)
    (lines : list Segment) (rest : list Tree) (ctx : list Frame) :
  plainKind (dataKind d) ->
  match rest with
  | [] => True
  | next :: _ => dataKind (treeData next) = KindParagraph
  end ->
  ParseBlockQuoteType
    {| focus := MkTree d (MkTree (HTMLBlock lines) [] :: rest);
       context := ctx |} source
  = classifyLines lines source BlockQuoteType.None.
Proof.
  intros Hd Hrest.
  unfold ParseBlockQuoteType, parseWalk, Walk. cbn [focus context].
  rewrite walkHelper_unfold. cbv zeta.
  rewrite parseWalker_passes by (done || lia). cbn [mbind go_bind].
  rewrite (bool_decide_eq_false_2 (WalkContinue = WalkStop)) by done.
  rewrite (bool_decide_eq_false_2 (WalkContinue = WalkSkipChildren)) by done.
  rewrite walkChildren_cons, walkHelper_unfold. cbv zeta.
  rewrite (parseWalker_block source _ lines) by done.
  destruct (classifyLines lines source BlockQuoteType.None) as [t|p];
    cbn [mbind go_bind]; [| reflexivity].
  rewrite (bool_decide_eq_false_2 (WalkContinue = WalkStop)) by done.
  rewrite (bool_decide_eq_false_2 (WalkContinue = WalkSkipChildren)) by done.
  rewrite walkChildren_nil. cbn [mbind go_bind].
  rewrite (bool_decide_eq_false_2 (WalkContinue = WalkStop)) by done.
  rewrite parseWalker_leaves. cbn [mbind go_bind].
  rewrite (bool_decide_eq_false_2 (WalkContinue = WalkStop)) by done.
  cbn [mret go_ret mbind go_bind].
  rewrite (bool_decide_eq_false_2 (WalkContinue = WalkStop)) by done.
  destruct rest as [|[dn cn] rest].
  - rewrite walkChildren_nil. cbn [mbind go_bind].
    rewrite (bool_decide_eq_false_2 (WalkContinue = WalkStop)) by done.
    rewrite parseWalker_leaves. reflexivity.
  - rewrite walkChildren_cons, walkHelper_unfold. cbv zeta.
    rewrite parseWalker_second_paragraph by done. reflexivity.
Qed.

(** X12, run on the quote that opens with the raw HTML block. *)
Lemma first_html_block_decides_witness :
  ParseBlockQuoteType warnQuote warnSource
  = classifyLines [seg 0 5; seg 5 9; seg 9 15] warnSource BlockQuoteType.None.
Proof.
  apply (first_html_block_decides warnSource (Other KindBlockquote)
           [seg 0 5; seg 5 9; seg 9 15] [block KindParagraph [text 0 5]]
           (context warnQuote)).
  - unfold plainKind. cbn [dataKind]. repeat split; discriminate.
  - reflexivity.
Defined.

(* --------------------------------------------------------------------- *)
(** ** More on the renderer *)
(* --------------------------------------------------------------------- *)

(** ** The two visits of a node and the cached level map *)

Lemma GenerateBlockQuoteLevel_document (n other : Node) :
  sameDocument n other ->
  GenerateBlockQuoteLevel n = GenerateBlockQuoteLevel other.
Proof. unfold GenerateBlockQuoteLevel, sameDocument. by intros ->. Qed.

Section RendererVisits.
Context {W : Type} `{BufWriter W}.
Context (RenderAttributes : W -> list Attribute -> W).



(** X14.  On an Admonition node of a document as the parser hands it over,
    [renderAdmon] returns at both visits, with any writer and any renderer;
    the renderer it leaves has the same configuration and holds a level
    map, and the renderer is left as it was when it held a map before. *)
Theorem renderAdmon_returns (r : Renderer) (w : W) (source : string)
    (node : Node) (entering : bool) (attrs : option (list Attribute)) :
  nodeOK source node = true ->
  treeData (focus node) = Admonition attrs ->
  exists r1 w1 res1,
    renderAdmon RenderAttributes r w source node entering
    = Ret (r1, w1, res1) /\
    config r1 = config r /\ LevelMap r1 <> None /\
    (LevelMap r <> None -> r1 = r).
Proof.
  intros Hok Hd.
  assert (Hm : exists m, holds r node m).
  { destruct (LevelMap r) as [m|] eqn:Hr; [exists m; by left |].
    destruct (GenerateBlockQuoteLevel_levels node) as (m & Hm & _).
    exists m. by right. }
  destruct Hm as [m Hm].
  destruct (parseWalk_returns source node Hok) as [[[quoteType c] st] Hw].
  assert (Hq : ParseBlockQuoteType node source = Ret quoteType).
  { unfold ParseBlockQuoteType. by rewrite Hw. }
  assert (Hsame : LevelMap r <> None ->
            {| config := config r; LevelMap := Some m |} = r).
  { intros Hne. destruct r as [cfg [m'|]]; [| done].
    destruct Hm as [Hm | [Hm _]]; cbn in Hm; by simplify_eq. }
  destruct (decide (Level m node = 0%Z /\ quoteType <> BlockQuoteType.None))
    as [[Hl Hn] | Hno].
  - rewrite (renderAdmon_macro RenderAttributes r w source node entering m
               quoteType Hm Hq Hl Hn).
    cbv zeta. by eexists _, _, _.
  - rewrite (renderAdmon_plain RenderAttributes r w source node entering m
               quoteType Hm Hq).
    2:{ destruct (decide (Level m node = 0%Z)); [| by left].
        destruct (decide (quoteType = BlockQuoteType.None)); [by right |].
        by destruct Hno. }
    cbv zeta.
    destruct (renderAdmonition_returns RenderAttributes
                {| config := config r; LevelMap := Some m |} w source node
                entering attrs Hd) as [w' ->].
    cbn [mbind go_bind mret go_ret]. by eexists _, _, _.
Qed.

(** X15.  The map is computed from the root of the document, so it is the
    same from whichever node it is computed; a renderer that holds the map
    computed at another node of the document does at a node what a renderer
    without a map does there. *)
Theorem cached_map_serves_document (cfg : Config) (w : W) (source : string)
    (node other : Node) (entering : bool) (m : BlockQuoteLevelMap) :
  sameDocument node other ->
  GenerateBlockQuoteLevel other = Ret m ->
  GenerateBlockQuoteLevel node = Ret m /\
  renderAdmon RenderAttributes {| config := cfg; LevelMap := Some m |} w
    source node entering
  = renderAdmon RenderAttributes {| config := cfg; LevelMap := None |} w
      source node entering.
Proof.
  intros Hdoc Hm.
  rewrite <- (GenerateBlockQuoteLevel_document node other Hdoc) in Hm.
  split; [done |]. unfold renderAdmon. cbn [LevelMap config]. by rewrite Hm.
Qed.
End RendererVisits.


(** X14, run with a writer that fails every write. *)
Lemma renderAdmon_returns_witness :
  exists r1 w1 res1,
    renderAdmon sinkRenderAttributes freshRenderer brokenSink noteSource
      noteAdmonition true
    = Ret (r1, w1, res1) /\
    config r1 = config freshRenderer /\ LevelMap r1 <> None.
Proof.
  destruct (renderAdmon_returns sinkRenderAttributes freshRenderer brokenSink
              noteSource noteAdmonition true None)
    as (r1 & w1 & res1 & Hr & Hc & Hl & _).
  - vm_compute. reflexivity.
  - reflexivity.
  - exists r1, w1, res1. split; [exact Hr |]. split; [exact Hc | exact Hl].
Defined.

(** X15, run on the admonition of the nested document with the map
    computed at the root. *)
Lemma cached_map_serves_document_witness :
  exists m,
    GenerateBlockQuoteLevel nestedRoot = Ret m /\
    GenerateBlockQuoteLevel nestedAdmonition = Ret m /\
    renderAdmon sinkRenderAttributes
      {| config := config freshRenderer; LevelMap := Some m |} emptySink
      noteSource nestedAdmonition true
    = renderAdmon sinkRenderAttributes
        {| config := config freshRenderer; LevelMap := None |} emptySink
        noteSource nestedAdmonition true.
Proof.
  destruct (GenerateBlockQuoteLevel nestedRoot) as [m|] eqn:Hm;
    [| vm_compute in Hm; discriminate].
  exists m. split; [reflexivity |].
  apply (cached_map_serves_document sinkRenderAttributes
           (config freshRenderer) emptySink noteSource nestedAdmonition
           nestedRoot true m).
  - reflexivity.
  - exact Hm.
Defined.
